(** * Time-slot visualizer: row store and timeline layout of [src/App.js]

    The development embeds the event handlers and the bar layout of the
    single React component [App] and states the properties of the row
    store, of the derived bounds, of the day segmentation and of the
    export and import of the rows.

    Conventions of the embedding.
    - A JavaScript [Date] wraps a time value: an integral number of
      milliseconds, or NaN for an "Invalid Date".  The time value is kept
      on the local wall clock of a zone with a fixed offset (no daylight
      saving switch), so that a calendar day is exactly [msPerDay]
      milliseconds; the clipping of time values at 8.64e15 ms is not
      modelled.
    - [null] is [None]; a [Date] object, valid or not, is truthy.
    - A thrown exception is the [None] of an [option] result.
    - Strings are sequences of one-byte code units.
    - The functions of date-fns and of the JavaScript library that the
      component calls are modelled next to it: [startOfDay], [endOfDay],
      [addDays] and [format] as functions, [parseISO] as a parameter of
      the import.

    The first part holds the definitions, the second part the
    properties. *)

From Stdlib Require Import ZArith Lia List Ascii String Bool DecimalString.
From Stdlib Require Import QArith Qcanon.
From stdpp Require Import base list strings numbers.

Local Open Scope string_scope.
Local Open Scope list_scope.
Local Open Scope Z_scope.

(** ** Dates: the time value and the calendar accessors *)

Module Calendar.

Inductive Date : Type :=
| Time (t : Z)
| InvalidDate.

Definition msPerDay : Z := 24 * 60 * 60 * 1000.

(** [date.getTime()]: [None] stands for NaN. *)
Definition getTime (d : Date) : option Z :=
  match d with Time t => Some t | InvalidDate => None end.

(** [new Date(n)] of an integral number or NaN. *)
Definition newDate (n : option Z) : Date :=
  match n with Some t => Time t | None => InvalidDate end.

(** Number of the calendar day a time value falls in, and the time spent
    in that day. *)
Definition dayOf (t : Z) : Z := t / msPerDay.
Definition timeInDay (t : Z) : Z := t mod msPerDay.

(** Proleptic Gregorian calendar: day number (days since 1970-01-01) to
    year, month (1..12) and day of the month, and back. *)
Definition civil_from_days (z : Z) : Z * Z * Z :=
  let z := z + 719468 in
  let era := z / 146097 in
  let doe := z - era * 146097 in
  let yoe := (doe - doe / 1460 + doe / 36524 - doe / 146096) / 365 in
  let y := yoe + era * 400 in
  let doy := doe - (365 * yoe + yoe / 4 - yoe / 100) in
  let mp := (5 * doy + 2) / 153 in
  let d := doy - (153 * mp + 2) / 5 + 1 in
  let m := if mp <? 10 then mp + 3 else mp - 9 in
  (if m <=? 2 then y + 1 else y, m, d).

Definition days_from_civil (y m d : Z) : Z :=
  let y := if m <=? 2 then y - 1 else y in
  let era := y / 400 in
  let yoe := y - era * 400 in
  let doy := (153 * (if 2 <? m then m - 3 else m + 9) + 2) / 5 + d - 1 in
  let doe := yoe * 365 + yoe / 4 - yoe / 100 + doy in
  era * 146097 + doe - 719468.

Definition getFullYear (t : Z) : Z := (civil_from_days (dayOf t)).1.1.
Definition getMonth (t : Z) : Z := (civil_from_days (dayOf t)).1.2 - 1.
Definition getDate (t : Z) : Z := (civil_from_days (dayOf t)).2.
Definition getHours (t : Z) : Z := timeInDay t / 3600000.
Definition getMinutes (t : Z) : Z := timeInDay t / 60000 mod 60.
Definition getSeconds (t : Z) : Z := timeInDay t / 1000 mod 60.
Definition getMilliseconds (t : Z) : Z := timeInDay t mod 1000.

(** [new Date(y, m - 1, d, hh, mm, ss, ms)] with a month counted from 1. *)
Definition localDate (y m d hh mm ss ms : Z) : Date :=
  Time (days_from_civil y m d * msPerDay
        + hh * 3600000 + mm * 60000 + ss * 1000 + ms).

(** date-fns [startOfDay]: [setHours(0, 0, 0, 0)]. *)
Definition startOfDay (d : Date) : Date :=
  match d with
  | Time t => Time (dayOf t * msPerDay)
  | InvalidDate => InvalidDate
  end.

(** date-fns [endOfDay]: [setHours(23, 59, 59, 999)]. *)
Definition endOfDay (d : Date) : Date :=
  match d with
  | Time t => Time (dayOf t * msPerDay + (msPerDay - 1))
  | InvalidDate => InvalidDate
  end.

(** date-fns [addDays]: [setDate(getDate() + amount)]. *)
Definition addDays (d : Date) (amount : Z) : Date :=
  match d with
  | Time t => Time (t + amount * msPerDay)
  | InvalidDate => InvalidDate
  end.

(** Relational operators on dates compare the time values; a comparison
    with NaN is false. *)
Definition date_ltb (a b : Date) : bool :=
  match a, b with Time x, Time y => x <? y | _, _ => false end.
Definition date_geb (a b : Date) : bool :=
  match a, b with Time x, Time y => y <=? x | _, _ => false end.

(** [a.getTime() === b.getTime()]: NaN is not equal to itself. *)
Definition sameTime (a b : Date) : bool :=
  match a, b with Time x, Time y => x =? y | _, _ => false end.

End Calendar.
Export Calendar.

(** ** date-fns [format] for the patterns the component uses *)

Module Format.

(** [addLeadingZeros(number, targetLength)]: the decimal digits of a
    non-negative number, padded on the left with zeros. *)
Fixpoint zeros (n : nat) : string :=
  match n with O => EmptyString | S n => String "0" (zeros n) end.

Definition addLeadingZeros (number : Z) (targetLength : nat) : string :=
  let digits := NilZero.string_of_uint (N.to_uint (Z.to_N number)) in
  zeros (targetLength - String.length digits) +:+ digits.

(** The tokens of the three patterns in use:
    ['yyyy-MM-dd HH:mm:ss'], ['yyyy-MM-dd'] and ['HH:mm']. *)
Inductive token : Type :=
| Tyyyy | TMM | Tdd | THH | Tmm | Tss
| Lit (s : string).

Definition formatToken (t : Z) (k : token) : string :=
  match k with
  | Tyyyy =>
      (* the year of the era: 1 - y for the years before year 1 *)
      let y := getFullYear t in
      addLeadingZeros (if 0 <? y then y else 1 - y) 4
  | TMM => addLeadingZeros (getMonth t + 1) 2
  | Tdd => addLeadingZeros (getDate t) 2
  | THH => addLeadingZeros (getHours t) 2
  | Tmm => addLeadingZeros (getMinutes t) 2
  | Tss => addLeadingZeros (getSeconds t) 2
  | Lit s => s
  end.

Fixpoint formatTokens (t : Z) (p : list token) : string :=
  match p with
  | [] => EmptyString
  | k :: p => formatToken t k +:+ formatTokens t p
  end.

(** [format(date, pattern)] throws a RangeError on an Invalid Date:
    [None]. *)
Definition format (d : Date) (p : list token) : option string :=
  match d with
  | Time t => Some (formatTokens t p)
  | InvalidDate => None
  end.

Definition yyyy_MM_dd_HH_mm_ss : list token :=
  [Tyyyy; Lit "-"; TMM; Lit "-"; Tdd; Lit " "; THH; Lit ":"; Tmm; Lit ":"; Tss].
Definition yyyy_MM_dd : list token := [Tyyyy; Lit "-"; TMM; Lit "-"; Tdd].
Definition HH_mm : list token := [THH; Lit ":"; Tmm].

End Format.
Export Format.

(** ** String primitives of the import and export code *)

Module Text.

Definition TAB : ascii := "009"%char.
Definition LF : ascii := "010"%char.
Definition CR : ascii := "013"%char.

(** The line break written by the export. *)
Definition CRLF : string := String CR (String LF EmptyString).

(** [s.split(c)] for a one-character separator; the result is never
    empty: [''.split(c)] is [['']]. *)
Fixpoint splitChar (c : ascii) (s : string) : list string :=
  match s with
  | EmptyString => [EmptyString]
  | String a s' =>
      if Ascii.eqb a c then EmptyString :: splitChar c s'
      else match splitChar c s' with
           | x :: xs => String a x :: xs
           | [] => [String a EmptyString]
           end
  end.

(** [s.split(/\r\n|\n/)]: at each position the alternative CR LF is tried
    before the alternative LF. *)
Fixpoint splitLines (s : string) : list string :=
  match s with
  | EmptyString => [EmptyString]
  | String a s' =>
      let cons_char (r : list string) :=
        match r with
        | x :: xs => String a x :: xs
        | [] => [String a EmptyString]
        end in
      if Ascii.eqb a LF then EmptyString :: splitLines s'
      else if Ascii.eqb a CR then
        match s' with
        | String b s'' =>
            if Ascii.eqb b LF then EmptyString :: splitLines s''
            else cons_char (splitLines s')
        | EmptyString => cons_char (splitLines s')
        end
      else cons_char (splitLines s')
  end.

(** White space and line terminators removed by [trim], among the code
    units below 256: TAB, LF, VT, FF, CR, space and the no-break space. *)
Definition isWhiteSpace (a : ascii) : bool :=
  let n := N_of_ascii a in
  ((9 <=? n) && (n <=? 13) || (n =? 32) || (n =? 160))%N.

Fixpoint trimStart (s : string) : string :=
  match s with
  | EmptyString => EmptyString
  | String a s' => if isWhiteSpace a then trimStart s' else s
  end.

Fixpoint trimEnd (s : string) : string :=
  match s with
  | EmptyString => EmptyString
  | String a s' =>
      match trimEnd s' with
      | EmptyString =>
          if isWhiteSpace a then EmptyString else String a EmptyString
      | t => String a t
      end
  end.

Definition trim (s : string) : string := trimEnd (trimStart s).

(** [lines.join(sep)]. *)
Fixpoint join (sep : string) (l : list string) : string :=
  match l with
  | [] => EmptyString
  | [x] => x
  | x :: l' => x +:+ sep +:+ join sep l'
  end.

(** Array [filter] with the two-argument callback [(element, index)]. *)
Fixpoint filterFrom {A} (p : A -> nat -> bool) (i : nat) (l : list A)
    : list A :=
  match l with
  | [] => []
  | x :: l' =>
      if p x i then x :: filterFrom p (S i) l' else filterFrom p (S i) l'
  end.

Definition filterIndexed {A} (p : A -> nat -> bool) (l : list A) : list A :=
  filterFrom p 0 l.

End Text.
Export Text.

(** ** The address predicate of [./utils] *)

Module Utils.

Definition isDigit (a : ascii) : bool :=
  let n := N_of_ascii a in ((48 <=? n) && (n <=? 57))%N.

Fixpoint allDigits (s : string) : bool :=
  match s with
  | EmptyString => true
  | String a s' => isDigit a && allDigits s'
  end.

(** Value of a string of decimal digits, most significant digit first. *)
Fixpoint decimalValue (acc : N) (s : string) : N :=
  match s with
  | EmptyString => acc
  | String a s' => decimalValue (10 * acc + (N_of_ascii a - 48))%N s'
  end.

Definition isOctet (s : string) : bool :=
  (0 <? String.length s)%nat && (String.length s <=? 3)%nat
  && allDigits s && (decimalValue 0 s <=? 255)%N.

(** Modelled from the spec: [validateIP] of [./utils], which is not among
    the sources.  Section 4.1: "four dot-separated groups, each a decimal
    integer 0-255 with no extraneous characters; any other shape is
    invalid".  A group is taken to be one to three decimal digits. *)
Definition validateIP (value : string) : bool :=
  match splitChar "."%char value with
  | [a; b; c; d] => isOctet a && isOctet b && isOctet c && isOctet d
  | _ => false
  end.

End Utils.
Export Utils.

(** ** The row store: component state and event handlers *)

Module Store.

(** The [errors] object of a row.  Rows hold a reference to it: the
    copies made by [handleCopySelected] share the object of their
    original. *)
Record Errors : Type := { err_ip : string; err_date : string }.

Record Row : Type := {
  name : string;
  ip : string;
  start : option Date;
  end_ : option Date;
  errors : nat;
  selected : bool;
}.

(** State of the component: the four [useState] cells and the store of
    the [errors] objects allocated so far. *)
Record App : Type := {
  heap : list Errors;
  rows : list Row;
  earliest : option Date;
  latest : option Date;
  selectAll : bool;
}.

Definition initial : App :=
  {| heap := []; rows := []; earliest := None; latest := None;
     selectAll := false |}.

Definition noErrors : Errors :=
  {| err_ip := EmptyString; err_date := EmptyString |}.

(** [Math.min] and [Math.max] of two numbers; NaN is contagious. *)
Definition numMin (a b : option Z) : option Z :=
  match a, b with Some x, Some y => Some (Z.min x y) | _, _ => None end.
Definition numMax (a b : option Z) : option Z :=
  match a, b with Some x, Some y => Some (Z.max x y) | _, _ => None end.

(** [rows.flatMap((row) => [row.start, row.end]).filter(Boolean)] *)
Definition definedDates (rs : list Row) : list Date :=
  omap id (flat_map (fun row => [start row; end_ row]) rs).

(** The effect run after every change of [rows]. *)
Definition boundsEffect (st : App) : App :=
  match rows st with
  | [] => st
  | _ :: _ =>
      match definedDates (rows st) with
      | [] => st
      | d :: ds =>
          let times := map getTime ds in
          {| heap := heap st; rows := rows st;
             earliest := Some (newDate (fold_left numMin times (getTime d)));
             latest := Some (newDate (fold_left numMax times (getTime d)));
             selectAll := selectAll st |}
      end
  end.

(** Result of a handler: the store of [errors] objects and the array
    passed to [setRows]. *)
Definition Update : Type := list Errors * list Row.

(** [setRows(newRows)], with the [errors] objects as the handler left
    them, and [setSelectAll(checked)]. *)
Definition setRows (u : Update) (st : App) : App :=
  {| heap := u.1; rows := u.2; earliest := earliest st;
     latest := latest st; selectAll := selectAll st |}.

Definition setSelectAll (checked : bool) (st : App) : App :=
  {| heap := heap st; rows := rows st; earliest := earliest st;
     latest := latest st; selectAll := checked |}.

Definition handleAddRow (st : App) : Update :=
  (heap st ++ [noErrors],
   rows st ++ [ {| name := EmptyString; ip := EmptyString;
                   start := None; end_ := None;
                   errors := length (heap st); selected := false |} ]).

Inductive field : Type := Fname | Fip | Fstart | Fend | Fselected.

Definition fieldType (f : field) : Type :=
  match f with
  | Fname | Fip => string
  | Fstart | Fend => option Date
  | Fselected => bool
  end.

Definition setField (f : field) : fieldType f -> Row -> Row :=
  match f with
  | Fname => fun v r =>
      {| name := v; ip := ip r; start := start r; end_ := end_ r;
         errors := errors r; selected := selected r |}
  | Fip => fun v r =>
      {| name := name r; ip := v; start := start r; end_ := end_ r;
         errors := errors r; selected := selected r |}
  | Fstart => fun v r =>
      {| name := name r; ip := ip r; start := v; end_ := end_ r;
         errors := errors r; selected := selected r |}
  | Fend => fun v r =>
      {| name := name r; ip := ip r; start := start r; end_ := v;
         errors := errors r; selected := selected r |}
  | Fselected => fun v r =>
      {| name := name r; ip := ip r; start := start r; end_ := end_ r;
         errors := errors r; selected := v |}
  end.

(** [field === 'ip' && !validateIP(value)] *)
Definition invalidAddressEdit (f : field) : fieldType f -> bool :=
  match f with
  | Fip => fun v => negb (validateIP v)
  | _ => fun _ => false
  end.

(** [handleChange(index, field, value)].  [None]: the assignment to
    [newRows[index][field]] throws, [index] being out of range, and
    [setRows] is not reached. *)
Definition handleChange (index : nat) (f : field) (value : fieldType f)
    (st : App) : option Update :=
  row ← rows st !! index;
  e ← heap st !! errors row;
  let message :=
    if invalidAddressEdit f value then "Invalid IP address"
    else EmptyString in
  let e' := {| err_ip := message; err_date := err_date e |} in
  Some (<[errors row := e']> (heap st),
        <[index := setField f value row]> (rows st)).

Definition handleDeleteRow (index : Z) (st : App) : Update :=
  (heap st,
   filterIndexed (fun _ i => negb (Z.of_nat i =? index)) (rows st)).

Definition handleDeleteSelected (st : App) : Update :=
  (heap st, List.filter (fun row => negb (selected row)) (rows st)).

Definition unselect (row : Row) : Row :=
  {| name := name row; ip := ip row; start := start row; end_ := end_ row;
     errors := errors row; selected := false |}.

Definition handleCopySelected (st : App) : Update :=
  let selectedRows := List.filter selected (rows st) in
  (heap st, rows st ++ map unselect selectedRows).

Definition handleSelectAll (checked : bool) (st : App) : Update :=
  (heap st,
   map (fun row =>
          {| name := name row; ip := ip row; start := start row;
             end_ := end_ row; errors := errors row; selected := checked |})
       (rows st)).

(** The drop result of the drag-and-drop library: the index the row was
    taken from and, unless it was dropped outside the list, the index it
    was dropped at. *)
Record DropResult : Type := { source : nat; destination : option nat }.

(** [a.splice(i, 0, x)]: an index beyond the end appends. *)
Definition spliceIn {A} (i : nat) (x : A) (l : list A) : list A :=
  take i l ++ x :: drop i l.

(** [handleDragEnd(result)].  [None]: [setRows] is not called with a row
    sequence, either because there is no destination or because the
    source index names no row (the array given to [setRows] then holds
    an [undefined] entry). *)
Definition handleDragEnd (result : DropResult) (st : App) : option Update :=
  dst ← destination result;
  reorderedRow ← rows st !! source result;
  Some (heap st, spliceIn dst reorderedRow (delete (source result) (rows st))).

(** The line written for a row by [handleExport]; [format] throws on an
    Invalid Date. *)
Definition formatOptional (d : option Date) : option string :=
  match d with
  | Some d => format d yyyy_MM_dd_HH_mm_ss
  | None => Some EmptyString
  end.

Definition exportLine (row : Row) : option string :=
  startFormatted ← formatOptional (start row);
  endFormatted ← formatOptional (end_ row);
  Some (name row +:+ String TAB (ip row +:+ String TAB
        (startFormatted +:+ String TAB endFormatted))).

(** [handleExport]: the content of the downloaded file. *)
Definition handleExport (rs : list Row) : option string :=
  join CRLF <$> mapM exportLine rs.

(** [row.errors.ip] of the row at [index], the helper text shown under
    its address field. *)
Definition addressError (st : App) (index : nat) : option string :=
  row ← rows st !! index;
  err_ip <$> heap st !! errors row.

(** Every row refers to an [errors] object of the store. *)
Definition refsValid (h : list Errors) (rs : list Row) : Prop :=
  Forall (fun row => (errors row < length h)%nat) rs.

Section Handlers.

(** date-fns [parseISO], whose result is an Invalid Date when the text is
    not recognised. *)
Variable parseISO : string -> Date.

Definition importDate (s : option string) : option Date :=
  match s with
  | Some EmptyString | None => None
  | Some s => Some (parseISO s)
  end.

Definition importLine (errorsRef : nat) (line : string) : Row :=
  let cells := splitChar TAB line in
  {| name := default EmptyString (cells !! 0%nat);
     ip := default EmptyString (cells !! 1%nat);
     start := importDate (cells !! 2%nat);
     end_ := importDate (cells !! 3%nat);
     errors := errorsRef;
     selected := false |}.

Definition importLines (text : string) : list string :=
  List.filter (fun line => negb (String.eqb (trim line) EmptyString))
              (splitLines text).

(** [reader.onload] of [handleImport]: the rows read from the file. *)
Definition handleImport (text : string) (st : App) : Update :=
  let lines := importLines text in
  (heap st ++ replicate (length lines) noErrors,
   imap (fun i line => importLine (length (heap st) + i) line) lines).

(** What the user can do, and the state after the handler and the
    effect have run. *)
Inductive action : Type :=
| AddRow
| Change (index : nat) (f : field) (value : fieldType f)
| DeleteRow (index : Z)
| DeleteSelected
| CopySelected
| SelectAll (checked : bool)
| DragEnd (result : DropResult)
| Import (text : string).

Definition handler (a : action) (st : App) : option Update :=
  match a with
  | AddRow => Some (handleAddRow st)
  | Change index f value => handleChange index f value st
  | DeleteRow index => Some (handleDeleteRow index st)
  | DeleteSelected => Some (handleDeleteSelected st)
  | CopySelected => Some (handleCopySelected st)
  | SelectAll checked => Some (handleSelectAll checked st)
  | DragEnd result => handleDragEnd result st
  | Import text => Some (handleImport text st)
  end.

Definition dispatch (a : action) (st : App) : App :=
  match handler a st with
  | None => st
  | Some u =>
      boundsEffect
        (setRows u
           match a with
           | SelectAll checked => setSelectAll checked st
           | _ => st
           end)
  end.

Definition run (l : list action) (st : App) : App :=
  fold_left (fun st a => dispatch a st) l st.

Inductive reachable : App -> Prop :=
| reachable_initial : reachable initial
| reachable_dispatch st a : reachable st -> reachable (dispatch a st).

End Handlers.

End Store.
Export Store.

(** ** The timeline layout: [calculateWidth], [calculateLeftPosition] and
    [renderBarSegments] *)

Module Layout.

Definition barColors : list string :=
  ["#03AED2"; "#FDDE55"; "#1E88E5"; "#FBC02D"].

Definition offset : Z := 5.

(** Numbers that come out of a division.  A finite quotient is kept as
    the exact rational, its rounding to a double is not modelled. *)
Inductive number : Type :=
| Finite (q : Qc)
| Infinity (negative : bool)
| NaN.

Definition ofInteger (n : option Z) : number :=
  match n with Some z => Finite (Qc_of_Z z) | None => NaN end.

(** [a - b] on operands converted to integral numbers or NaN. *)
Definition numSub (a b : option Z) : option Z :=
  match a, b with Some x, Some y => Some (x - y) | _, _ => None end.

(** [a / b] for integral operands. *)
Definition numDiv (a b : option Z) : number :=
  match a, b with
  | Some x, Some y =>
      if y =? 0 then
        (if x =? 0 then NaN else Infinity (x <? 0))
      else Finite (Qc_of_Z x / Qc_of_Z y)%Qc
  | _, _ => NaN
  end.

(** [x * 100] *)
Definition times100 (x : number) : number :=
  match x with
  | Finite q => Finite (q * Qc_of_Z 100)%Qc
  | Infinity s => Infinity s
  | NaN => NaN
  end.

(** Conversion of a date operand to a number: [null] converts to 0. *)
Definition toNumber (d : option Date) : option Z :=
  match d with Some d => getTime d | None => Some 0 end.

Definition calculateWidth (earliest latest start end_ : option Date) : number :=
  match earliest, latest, start, end_ with
  | Some _, Some _, Some _, Some _ =>
      let totalDuration := numSub (toNumber latest) (toNumber earliest) in
      let rowDuration := numSub (toNumber end_) (toNumber start) in
      times100 (numDiv rowDuration totalDuration)
  | _, _, _, _ => Finite (Qc_of_Z 0)
  end.

(** Values of the [left] and [width] style properties. *)
Inductive Css : Type :=
| Plain (n : Z)                        (* a bare number *)
| Percent (p : number)                 (* `${p}%` *)
| CalcPercentPx (p : number) (px : Z). (* `calc(${p}% + ${px}px)` *)

Definition calculateLeftPosition (earliest latest start : option Date) : Css :=
  match earliest, start with
  | Some _, Some _ =>
      let totalDuration := numSub (toNumber latest) (toNumber earliest) in
      let startDuration := numSub (toNumber start) (toNumber earliest) in
      let positionPercentage := times100 (numDiv startDuration totalDuration) in
      CalcPercentPx positionPercentage offset
  | _, _ => Plain offset
  end.

Record Segment : Type := { seg_start : Date; seg_end : Date }.

(** The two lines of a label: the date and the time of day. *)
Definition Label : Type := (string * string)%type.

Record Box : Type := {
  box_left : Css;
  box_width : Css;
  backgroundColor : option string;
  firstLabel : option Label;
  lastLabel : option Label;
}.

(** The box drawn for a record whose interval is empty or reversed. *)
Definition invalidRangeBox : Box :=
  {| box_left := Percent (Finite (Qc_of_Z 0));
     box_width := Percent (Finite (Qc_of_Z 100));
     backgroundColor := Some "red";
     firstLabel := None; lastLabel := None |}.

(** The [while] loop filling [segments], run for at most [fuel]
    iterations; [None] when the iterations do not suffice. *)
Fixpoint segmentLoop (fuel : nat) (currentStart currentEnd end_ : Date)
    : option (list Segment) :=
  if date_ltb currentEnd end_ then
    match fuel with
    | O => None
    | S fuel =>
        let nextStart := startOfDay (addDays currentEnd 1) in
        cons {| seg_start := currentStart; seg_end := currentEnd |}
          <$> segmentLoop fuel nextStart (endOfDay nextStart) end_
    end
  else Some [ {| seg_start := currentStart; seg_end := end_ |} ].

(** A number of iterations that suffices: one per day boundary between
    the first value of [currentEnd] and [end]. *)
Definition loopFuel (currentEnd end_ : Date) : nat :=
  match currentEnd, end_ with
  | Time c, Time e => Z.to_nat ((e - c) / msPerDay + 1)
  | _, _ => O
  end.

(** Lines 167-176: the array [segments]. *)
Definition daySegments (start end_ : Date) : option (list Segment) :=
  segmentLoop (loopFuel (endOfDay start) end_) start (endOfDay start) end_.

(** [startOfDay(earliest)]; date-fns turns [null] into an Invalid Date. *)
Definition startOfDayOrInvalid (d : option Date) : Date :=
  match d with Some d => startOfDay d | None => InvalidDate end.

(** [Math.floor((segment.start - startOfDay(earliest)) / (24*60*60*1000))];
    on integers in the range of time values the floor of the double
    quotient is the floor of the exact quotient. *)
Definition dayIndex (earliest : option Date) (segment : Segment) : option Z :=
  d ← numSub (getTime (seg_start segment))
             (getTime (startOfDayOrInvalid earliest));
  Some (d / msPerDay).

(** [barColors[dayIndex % barColors.length]]: the remainder has the sign
    of [dayIndex]; a negative or NaN index selects nothing. *)
Definition segmentColor (earliest : option Date) (segment : Segment)
    : option string :=
  i ← dayIndex earliest segment;
  let r := Z.rem i (Z.of_nat (length barColors)) in
  if r <? 0 then None else barColors !! Z.to_nat r.

Definition label (d : Date) : option Label :=
  day ← format d yyyy_MM_dd;
  time ← format d HH_mm;
  Some (day, time).

Definition labelWhen (b : bool) (d : Date) : option (option Label) :=
  if b then Some <$> label d else Some None.

(** Lines 178-228: the box of one segment; [None] if [format] throws. *)
Definition renderSegment (earliest latest : option Date) (start end_ : Date)
    (segment : Segment) : option Box :=
  let color := segmentColor earliest segment in
  let isFirstSegment := sameTime (seg_start segment) start in
  let isLastSegment := sameTime (seg_end segment) end_ in
  first ← labelWhen isFirstSegment (seg_start segment);
  last ← labelWhen isLastSegment (seg_end segment);
  Some {| box_left := calculateLeftPosition earliest latest
                        (Some (seg_start segment));
          box_width := Percent (calculateWidth earliest latest
                                  (Some (seg_start segment))
                                  (Some (seg_end segment)));
          backgroundColor := color;
          firstLabel := first; lastLabel := last |}.

Inductive Rendered : Type :=
| Nothing                        (* [null] *)
| InvalidRange (marker : Box)    (* the single red box *)
| Bars (boxes : list Box).       (* one box per segment *)

Definition renderBarSegments (earliest latest start end_ : option Date)
    : option Rendered :=
  match start, end_ with
  | Some s, Some e =>
      if date_geb s e then Some (InvalidRange invalidRangeBox)
      else
        segments ← daySegments s e;
        Bars <$> mapM (renderSegment earliest latest s e) segments
  | _, _ => Some Nothing
  end.

End Layout.
Export Layout.

(** ** A reader for the timestamps written by the export

    [parseISO] accepts many ISO 8601 layouts.  [parseDateTime] reads the
    calendar date-time layout among them, [YYYY-MM-DD], alone or followed
    by [T] or a space and [HH:mm] or [HH:mm:ss], with the range checks of
    date-fns, and answers Invalid Date to every other text.  It serves as
    the instance of [parseISO] wherever a concrete reader is needed. *)

Module Reader.

Definition digitValue (a : ascii) : option Z :=
  if isDigit a then Some (Z.of_N (N_of_ascii a) - 48) else None.

Definition twoDigits (a b : ascii) : option Z :=
  x ← digitValue a; y ← digitValue b; Some (10 * x + y).

Definition fourDigits (a b c d : ascii) : option Z :=
  x ← twoDigits a b; y ← twoDigits c d; Some (100 * x + y).

Definition isLeapYearIndex (year : Z) : bool :=
  (year mod 400 =? 0) || ((year mod 4 =? 0) && negb (year mod 100 =? 0)).

Definition daysInMonth (year month : Z) : Z :=
  if month =? 2 then (if isLeapYearIndex year then 29 else 28)
  else if (month =? 4) || (month =? 6) || (month =? 9) || (month =? 11)
       then 30 else 31.

Definition validateDate (year month day : Z) : bool :=
  (1 <=? month) && (month <=? 12) && (1 <=? day)
  && (day <=? daysInMonth year month).

Definition validateTime (hours minutes seconds : Z) : bool :=
  if hours =? 24 then (minutes =? 0) && (seconds =? 0)
  else (seconds <? 60) && (minutes <? 60) && (hours <? 25).

(** Milliseconds of [HH:mm] or [HH:mm:ss]. *)
Definition parseTime (s : string) : option Z :=
  match s with
  | String h1 (String h2 (String c1 (String m1 (String m2 rest)))) =>
      hours ← twoDigits h1 h2;
      minutes ← twoDigits m1 m2;
      seconds ← match rest with
                | EmptyString => Some 0
                | String c2 (String s1 (String s2 EmptyString)) =>
                    if Ascii.eqb c2 ":" then twoDigits s1 s2 else None
                | _ => None
                end;
      if Ascii.eqb c1 ":" && validateTime hours minutes seconds
      then Some (hours * 3600000 + minutes * 60000 + seconds * 1000)
      else None
  | _ => None
  end.

Definition parseDateTimeValue (s : string) : option Z :=
  match s with
  | String y1 (String y2 (String y3 (String y4 (String c1
      (String m1 (String m2 (String c2 (String d1 (String d2 rest))))))))) =>
      year ← fourDigits y1 y2 y3 y4;
      month ← twoDigits m1 m2;
      day ← twoDigits d1 d2;
      time ← match rest with
             | EmptyString => Some 0
             | String sep time =>
                 if Ascii.eqb sep "T" || Ascii.eqb sep " "
                 then parseTime time else None
             end;
      if Ascii.eqb c1 "-" && Ascii.eqb c2 "-" && validateDate year month day
      then Some (days_from_civil year month day * msPerDay + time)
      else None
  | _ => None
  end.

Definition parseDateTime (s : string) : Date :=
  newDate (parseDateTimeValue s).

End Reader.
Export Reader.

(** ** Shape of the segment array

    [dayChain e cs segs]: starting at the time value [cs], [segs] runs
    through whole calendar days up to the time value [e].  Every segment
    but the last ends with the last millisecond of the day of its start,
    and its successor starts with the millisecond after. *)

Module Shape.

Definition lastMsOfDay (t : Z) : Z := dayOf t * msPerDay + (msPerDay - 1).

Inductive dayChain (e : Z) : Z -> list Segment -> Prop :=
| dayChain_last cs :
    e <= lastMsOfDay cs ->
    dayChain e cs [ {| seg_start := Time cs; seg_end := Time e |} ]
| dayChain_day cs segs :
    lastMsOfDay cs < e ->
    dayChain e (lastMsOfDay cs + 1) segs ->
    dayChain e cs
      ({| seg_start := Time cs; seg_end := Time (lastMsOfDay cs) |} :: segs).

End Shape.
Export Shape.

(** ** Records that survive the export and the import

    The vocabulary of the round-trip statement: texts free of a given
    character, texts with a character that [trim] keeps, and timestamps
    that the pattern [yyyy-MM-dd HH:mm:ss] writes without loss. *)

Module RoundTrip.

Fixpoint freeOf (c : ascii) (s : string) : bool :=
  match s with
  | EmptyString => true
  | String a s' => negb (Ascii.eqb a c) && freeOf c s'
  end.

Fixpoint hasInk (s : string) : bool :=
  match s with
  | EmptyString => false
  | String a s' => negb (isWhiteSpace a) || hasInk s'
  end.

(** A cell of a line: no TAB, which would end the cell, and no LF, which
    would end the line. *)
Definition isCell (s : string) : Prop :=
  freeOf TAB s = true /\ freeOf LF s = true.

(** A time value on a whole second, in the years 1 to 9999. *)
Definition isWritable (t : Z) : Prop :=
  t mod 1000 = 0 /\ 1 <= getFullYear t <= 9999.

Definition isWritableDate (d : option Date) : Prop :=
  match d with
  | None => True
  | Some (Time t) => isWritable t
  | Some InvalidDate => False
  end.

(** A record that the import gives back: its name and address are cells,
    its timestamps are unset or writable, and its line is not blank. *)
Definition isPortable (row : Row) : Prop :=
  isCell (name row) /\ isCell (ip row)
  /\ isWritableDate (start row) /\ isWritableDate (end_ row)
  /\ (hasInk (name row) = true \/ hasInk (ip row) = true
      \/ start row <> None \/ end_ row <> None).

(** The text written for a timestamp, and the line written for a
    record. *)
Definition written (d : option Date) : string :=
  match d with
  | Some (Time t) => formatTokens t yyyy_MM_dd_HH_mm_ss
  | _ => EmptyString
  end.

Definition lineOf (row : Row) : string :=
  name row +:+ String TAB (ip row +:+ String TAB
    (written (start row) +:+ String TAB (written (end_ row)))).

(** The four fields the export writes. *)
Definition content (row : Row)
    : string * string * option Date * option Date :=
  (name row, ip row, start row, end_ row).

End RoundTrip.
Export RoundTrip.

(** ** Exhaustive checks

    Facts about the digits of bounded numbers and about the days of one
    400-year cycle are settled by running a test over the whole range. *)

Module Checks.

(** [test] holds of the [n] integers from [k] on. *)
Fixpoint holdsFrom (test : Z -> bool) (k : Z) (n : nat) : bool :=
  match n with
  | O => true
  | S n => test k && holdsFrom test (k + 1) n
  end.

(** [test] holds of every integer from 0 below [n]. *)
Definition holdsBelow (test : Z -> bool) (n : Z) : bool :=
  holdsFrom test 0 (Z.to_nat n).

Definition digitChar (k : Z) : ascii := ascii_of_N (Z.to_N (48 + k)).

Definition twoChars (n : Z) : string :=
  String (digitChar (n / 10)) (String (digitChar (n mod 10)) EmptyString).

Definition fourChars (n : Z) : string :=
  String (digitChar (n / 1000)) (String (digitChar (n / 100 mod 10))
    (String (digitChar (n / 10 mod 10))
       (String (digitChar (n mod 10)) EmptyString))).

(** The day [doe] of the cycle that starts on 0000-03-01: its calendar
    date leads back to the same day number and passes the range check of
    the reader. *)
Definition cycleDayTest (doe : Z) : bool :=
  let z := doe - 719468 in
  let '(y, m, d) := civil_from_days z in
  (days_from_civil y m d =? z) && validateDate y m d.

(** The text of a timestamp in the pattern [yyyy-MM-dd HH:mm:ss], digit
    by digit. *)
Definition stamp (y m d hh mm ss : Z) : string :=
  fourChars y +:+ "-" +:+ twoChars m +:+ "-" +:+ twoChars d +:+ " "
  +:+ twoChars hh +:+ ":" +:+ twoChars mm +:+ ":" +:+ twoChars ss.

End Checks.
Export Checks.

(** ** Sample data *)

Module Samples.

Definition jan1_1000 : Date := localDate 2024 1 1 10 0 0 0.
Definition jan3_1400 : Date := localDate 2024 1 3 14 0 0 0.
Definition jan2_0000 : Date := localDate 2024 1 2 0 0 0 0.
Definition jan3_0000 : Date := localDate 2024 1 3 0 0 0 0.

Definition threeRows : App :=
  run parseDateTime
      [AddRow; AddRow; AddRow;
       Change 0 Fname "alpha"; Change 1 Fname "beta"; Change 2 Fname "gamma"]
      initial.

(** Two dated rows, the second one without an end. *)
Definition datedRows : list Row :=
  [ {| name := "gateway"; ip := "10.0.0.1"; start := Some jan1_1000;
       end_ := Some jan3_1400; errors := 0%nat; selected := true |};
    {| name := EmptyString; ip := "10.0.0.2"; start := Some jan2_0000;
       end_ := None; errors := 1%nat; selected := false |} ].

(** A row whose start carries half a second. *)
Definition halfSecondRow : Row :=
  {| name := "gateway"; ip := "10.0.0.1";
     start := Some (localDate 2024 1 1 10 0 0 500);
     end_ := Some jan3_1400; errors := 0%nat; selected := false |}.

(** A row whose name holds a TAB. *)
Definition tabbedRow : Row :=
  {| name := "a" +:+ String TAB "b"; ip := "10.0.0.1";
     start := Some jan1_1000; end_ := Some jan3_1400;
     errors := 0%nat; selected := false |}.

Definition jan1_1100 : Date := localDate 2024 1 1 11 0 0 0.

(** A single blank row. *)
Definition oneRow : App := setRows (handleAddRow initial) initial.

(** One row whose start lies after its end. *)
Definition datedState : App :=
  run parseDateTime
      [AddRow; Change 0 Fstart (Some jan3_1400); Change 0 Fend (Some jan1_1000)]
      initial.

(** A dated row that is added and deleted again. *)
Definition emptiedState : App :=
  run parseDateTime
      [AddRow; Change 0 Fstart (Some jan1_1000); DeleteRow 0] initial.

(** One row whose address was typed as [999]. *)
Definition badAddress : App :=
  run parseDateTime [AddRow; Change 0 Fip "999"] initial.

End Samples.
Export Samples.

(** ** The header checkbox and the fields of a row *)

Module View.

(** The [indeterminate] flag of the checkbox in the table header:
    [rows.some((row) => row.selected) && rows.some((row) => !row.selected)]. *)
Definition indeterminate (rs : list Row) : bool :=
  existsb selected rs && existsb (fun row => negb (selected row)) rs.

(** [row[field]] *)
Definition getField (f : field) : Row -> fieldType f :=
  match f with
  | Fname => name
  | Fip => ip
  | Fstart => start
  | Fend => end_
  | Fselected => selected
  end.

End View.
Export View.

(** ** Shape of the bounds *)

Module BoundsShape.

(** Both bounds are unset, or both are Invalid Dates, or they are valid
    and in order. *)
Definition boundsInOrder (lo hi : option Date) : Prop :=
  (lo = None /\ hi = None)
  \/ (lo = Some InvalidDate /\ hi = Some InvalidDate)
  \/ (exists x y, lo = Some (Time x) /\ hi = Some (Time y) /\ x <= y).

End BoundsShape.
Export BoundsShape.

(** ** More sample data *)

Module MoreSamples.

(** A selected row, its copy and a row added afterwards: the first two
    share their [errors] object. *)
Definition copiedState : App :=
  run parseDateTime [AddRow; Change 0 Fselected true; CopySelected; AddRow]
      initial.

(** An imported row whose end is no timestamp. *)
Definition invalidState : App :=
  run parseDateTime
      [Import ("a" +:+ String TAB ("1.2.3.4" +:+ String TAB
                 ("2024-01-01T10:00" +:+ String TAB "soon")))]
      initial.


End MoreSamples.
Export MoreSamples.

(** * Properties *)

(** Linear arithmetic with division and remainder by constants. *)
Ltac div_lia := Z.div_mod_to_equations; lia.

(** ** Deleting and reordering rows *)

Section Sequence.

Context {A : Type}.
Implicit Types (l : list A) (x : A).

Lemma filterFrom_keep_all (p : A -> nat -> bool) l k :
  (forall x i, (k <= i < k + length l)%nat -> p x i = true) ->
  filterFrom p k l = l.
Proof.
  revert k. induction l as [|y l IH]; intros k Hp; simpl; [done|].
  rewrite Hp by (simpl; lia). f_equal. apply IH.
  intros x i Hi. apply Hp. simpl. lia.
Qed.

Lemma filterFrom_skip_one (index : Z) l k i :
  Z.of_nat (k + i) = index -> (i < length l)%nat ->
  filterFrom (fun _ n => negb (Z.of_nat n =? index)) k l = delete i l.
Proof.
  revert k i. induction l as [|y l IH]; intros k i Hk Hi; simpl in *; [lia|].
  destruct i as [|i].
  - replace (Z.of_nat k =? index) with true
      by (symmetry; apply Z.eqb_eq; lia).
    simpl. apply filterFrom_keep_all.
    intros _ n Hn. apply negb_true_iff, Z.eqb_neq. lia.
  - replace (Z.of_nat k =? index) with false
      by (symmetry; apply Z.eqb_neq; lia).
    simpl. f_equal. apply IH; lia.
Qed.

Lemma spliceIn_lookup l x j :
  (j <= length l)%nat -> spliceIn j x l !! j = Some x.
Proof.
  intros Hj. unfold spliceIn.
  rewrite lookup_app_r by (rewrite length_take; lia).
  rewrite length_take, Nat.min_l, Nat.sub_diag by lia. done.
Qed.

Lemma delete_spliceIn l x j :
  (j <= length l)%nat -> delete j (spliceIn j x l) = l.
Proof.
  intros Hj. unfold spliceIn. rewrite delete_take_drop.
  rewrite take_app_length' by (rewrite length_take; lia).
  rewrite drop_app_ge by (rewrite length_take; lia).
  rewrite length_take, Nat.min_l by lia.
  replace (S j - j)%nat with 1%nat by lia. simpl. rewrite drop_0.
  apply take_drop.
Qed.

Lemma spliceIn_delete l x i :
  l !! i = Some x -> spliceIn i x (delete i l) = l.
Proof.
  intros Hi. unfold spliceIn. rewrite delete_take_drop.
  pose proof (lookup_lt_Some _ _ _ Hi) as Hlt.
  rewrite take_app_length' by (rewrite length_take; lia).
  rewrite drop_app_length' by (rewrite length_take; lia).
  by apply take_drop_middle.
Qed.

End Sequence.

(** C10.  [handleDeleteRow] with an index that names no row, negative or
    at least the length of the sequence, returns the rows (and the
    [errors] objects) unchanged; the handler is a total function. *)
Theorem handleDeleteRow_out_of_range (index : Z) (st : App) :
  index < 0 \/ Z.of_nat (length (rows st)) <= index ->
  handleDeleteRow index st = (heap st, rows st).
Proof.
  intros Hout. unfold handleDeleteRow, filterIndexed. f_equal.
  apply filterFrom_keep_all. intros _ i Hi.
  apply negb_true_iff, Z.eqb_neq. lia.
Qed.

Lemma handleDeleteRow_out_of_range_witness :
  (-1 < 0 \/ Z.of_nat (length (rows oneRow)) <= -1)
  /\ handleDeleteRow (-1) oneRow = (heap oneRow, rows oneRow)
  /\ (1 < 0 \/ Z.of_nat (length (rows oneRow)) <= 1)
  /\ handleDeleteRow 1 oneRow = (heap oneRow, rows oneRow).
Proof.
  assert (H1 : -1 < 0 \/ Z.of_nat (length (rows oneRow)) <= -1)
    by (left; lia).
  assert (H2 : 1 < 0 \/ Z.of_nat (length (rows oneRow)) <= 1)
    by (right; simpl; lia).
  exact (conj H1 (conj (handleDeleteRow_out_of_range (-1) oneRow H1)
           (conj H2 (handleDeleteRow_out_of_range 1 oneRow H2)))).
Defined.

(** An index in range removes exactly the row at that index. *)
Lemma handleDeleteRow_in_range (i : nat) (st : App) :
  (i < length (rows st))%nat ->
  handleDeleteRow (Z.of_nat i) st = (heap st, delete i (rows st)).
Proof.
  intros Hi. unfold handleDeleteRow, filterIndexed. f_equal.
  by apply filterFrom_skip_one.
Qed.

(** C9.  Dragging the row at [i] to [j] and then the row at [j] back to
    [i], both inside the sequence, gives back the original order: both
    calls reach [setRows], the second one with the original rows. *)
Theorem handleDragEnd_round_trip (st : App) (i j : nat) :
  i <> j -> (i < length (rows st))%nat -> (j < length (rows st))%nat ->
  exists u,
    handleDragEnd {| source := i; destination := Some j |} st = Some u
    /\ handleDragEnd {| source := j; destination := Some i |}
         (boundsEffect (setRows u st))
       = Some (heap st, rows st).
Proof.
  intros _ Hi Hj.
  destruct (lookup_lt_is_Some_2 (rows st) i Hi) as [x Hx].
  exists (heap st, spliceIn j x (delete i (rows st))). split.
  - unfold handleDragEnd. simpl. rewrite Hx. done.
  - assert (Hlen : (j <= length (delete i (rows st)))%nat)
      by (rewrite length_delete by eauto; lia).
    assert (Hrows : forall s, rows (boundsEffect s) = rows s).
    { intros s. unfold boundsEffect.
      destruct (rows s) eqn:E; [by rewrite E|].
      destruct (definedDates _); simpl; by rewrite ?E. }
    assert (Hheap : forall s, heap (boundsEffect s) = heap s).
    { intros s. unfold boundsEffect.
      destruct (rows s); [done|]. by destruct (definedDates _). }
    unfold handleDragEnd. simpl. rewrite Hrows, Hheap. simpl.
    rewrite spliceIn_lookup by done. simpl.
    rewrite delete_spliceIn by done.
    by rewrite spliceIn_delete.
Qed.

Lemma handleDragEnd_round_trip_witness :
  (0 <> 2)%nat /\ (0 < length (rows threeRows))%nat
  /\ (2 < length (rows threeRows))%nat
  /\ exists u,
       handleDragEnd {| source := 0; destination := Some 2%nat |} threeRows
       = Some u
       /\ handleDragEnd {| source := 2; destination := Some 0%nat |}
            (boundsEffect (setRows u threeRows))
          = Some (heap threeRows, rows threeRows).
Proof.
  assert (H02 : (0 <> 2)%nat) by lia.
  assert (H0 : (0 < length (rows threeRows))%nat) by (vm_compute; lia).
  assert (H2 : (2 < length (rows threeRows))%nat) by (vm_compute; lia).
  exact (conj H02 (conj H0 (conj H2
           (handleDragEnd_round_trip threeRows 0 2 H02 H0 H2)))).
Defined.

Example handleDragEnd_moves_first_to_last :
  (fun u => map name u.2)
    <$> handleDragEnd {| source := 0; destination := Some 2%nat |} threeRows
  = Some ["beta"; "gamma"; "alpha"].
Proof. reflexivity. Qed.

(** ** Editing a field *)

(** The edited field is the only field of the row that changes, and the
    other rows are untouched. *)
Lemma handleChange_rows (index : nat) (f : field) (value : fieldType f)
    (st : App) (u : Update) :
  handleChange index f value st = Some u ->
  exists row, rows st !! index = Some row
              /\ u.2 = <[index := setField f value row]> (rows st).
Proof.
  unfold handleChange. intros H.
  destruct (rows st !! index) as [row|]; [|done]. simpl in H.
  destruct (heap st !! errors row); [|done]. simpl in H.
  injection H as <-. eauto.
Qed.

(** Whatever field is edited, the address message of the row is written:
    it is "Invalid IP address" when the edit is an invalid address, and
    empty for every other edit. *)
Lemma handleChange_address_message (index : nat) (f : field)
    (value : fieldType f) (st : App) (u : Update) :
  handleChange index f value st = Some u ->
  addressError (setRows u st) index
  = Some (if invalidAddressEdit f value then "Invalid IP address"
          else EmptyString).
Proof.
  unfold handleChange, addressError. intros H.
  destruct (rows st !! index) as [row|] eqn:Hrow; [|done]. simpl in H.
  destruct (heap st !! errors row) as [e|] eqn:He; [|done]. simpl in H.
  injection H as <-. simpl.
  rewrite list_lookup_insert_eq by eauto using lookup_lt_Some. simpl.
  assert (errors (setField f value row) = errors row) as -> by by destruct f.
  rewrite list_lookup_insert_eq by eauto using lookup_lt_Some. done.
Qed.

(** C8 (the code departs from the claim).  The row of [badAddress] holds
    the address [999] and shows "Invalid IP address".  Editing its name
    leaves the address as it is but empties the message. *)
Theorem handleChange_name_clears_address_error :
  ip <$> rows badAddress !! 0%nat = Some "999"
  /\ validateIP "999" = false
  /\ addressError badAddress 0 = Some "Invalid IP address"
  /\ exists u, handleChange 0 Fname "x" badAddress = Some u
               /\ ip <$> u.2 !! 0%nat = Some "999"
               /\ addressError (setRows u badAddress) 0 = Some EmptyString.
Proof.
  repeat split; try reflexivity.
  eexists. repeat split; reflexivity.
Qed.

(** The [errors] object is shared between a row and its copies: an
    invalid address typed into the copy marks the original as well. *)
Example copy_shares_errors :
  let st := run parseDateTime
              [AddRow; Change 0 Fselected true; CopySelected;
               Change 1 Fip "x"] initial in
  ip <$> rows st !! 0%nat = Some EmptyString
  /\ addressError st 0 = Some "Invalid IP address".
Proof. split; reflexivity. Qed.

(** ** Geometry without bounds *)

(** C6 (amended).  When [earliest] is unset the left position is the
    fixed offset of 5 pixels, and when [earliest] or [latest] is unset
    the width is 0. *)
Theorem unset_bounds_collapse (earliest latest start end_ : option Date) :
  (earliest = None ->
   calculateLeftPosition earliest latest start = Plain 5)
  /\ (earliest = None \/ latest = None ->
      calculateWidth earliest latest start end_ = Finite (Qc_of_Z 0)).
Proof.
  split.
  - by intros ->.
  - intros [-> | ->]; [done|]. unfold calculateWidth.
    by destruct earliest.
Qed.

Lemma unset_bounds_collapse_witness :
  (@None Date = None ->
   calculateLeftPosition None None (Some jan1_1000) = Plain 5)
  /\ (@None Date = None \/ @None Date = None ->
      calculateWidth None None (Some jan1_1000) (Some jan3_1400)
      = Finite (Qc_of_Z 0)).
Proof.
  exact (unset_bounds_collapse None None (Some jan1_1000) (Some jan3_1400)).
Defined.

(** C6 as stated fails for equal bounds: the total duration is 0, the
    width of a one-hour segment is [Infinity] and the position of its
    start, 0 / 0, is not a number. *)
Lemma equal_bounds_do_not_collapse :
  calculateWidth (Some jan1_1000) (Some jan1_1000)
                 (Some jan1_1000) (Some jan1_1100) = Infinity false
  /\ calculateWidth (Some jan1_1000) (Some jan1_1000)
                    (Some jan1_1000) (Some jan1_1100) <> Finite (Qc_of_Z 0)
  /\ calculateLeftPosition (Some jan1_1000) (Some jan1_1000) (Some jan1_1000)
     = CalcPercentPx NaN 5
  /\ calculateLeftPosition (Some jan1_1000) (Some jan1_1000) (Some jan1_1000)
     <> Plain 5.
Proof. repeat split; try reflexivity; discriminate. Qed.

(** ** The layout of a record *)

(** C3.  When [start >= end] holds of two set timestamps the layout is
    the single invalid-range box: full width, at the left edge, in a red
    that is not a colour of the palette.  When [start] or [end] is unset
    the layout is empty. *)
Theorem renderBarSegments_degenerate
    (earliest latest start end_ : option Date) :
  (forall s e, start = Some s -> end_ = Some e -> date_geb s e = true ->
     renderBarSegments earliest latest start end_
     = Some (InvalidRange invalidRangeBox))
  /\ (start = None \/ end_ = None ->
      renderBarSegments earliest latest start end_ = Some Nothing)
  /\ box_left invalidRangeBox = Percent (Finite (Qc_of_Z 0))
  /\ box_width invalidRangeBox = Percent (Finite (Qc_of_Z 100))
  /\ backgroundColor invalidRangeBox = Some "red"
  /\ ~ In "red" barColors.
Proof.
  repeat split; try reflexivity.
  - intros s e -> -> Hge. unfold renderBarSegments. by rewrite Hge.
  - intros [-> | ->]; [done|]. unfold renderBarSegments. by destruct start.
  - simpl. intros [H|[H|[H|[H|[]]]]]; discriminate.
Qed.
Lemma renderBarSegments_degenerate_witness :
  date_geb jan1_1000 jan1_1000 = true
  /\ renderBarSegments None None (Some jan1_1000) (Some jan1_1000)
     = Some (InvalidRange invalidRangeBox)
  /\ renderBarSegments None None None (Some jan1_1000) = Some Nothing.
Proof.
  assert (H : date_geb jan1_1000 jan1_1000 = true) by reflexivity.
  split; [exact H|]. split.
  - exact (proj1 (renderBarSegments_degenerate None None (Some jan1_1000)
                    (Some jan1_1000))
             jan1_1000 jan1_1000 eq_refl eq_refl H).
  - exact (proj1 (proj2 (renderBarSegments_degenerate None None None
                           (Some jan1_1000)))
             (or_introl eq_refl)).
Defined.

(** ** The day segmentation *)

Lemma msPerDay_value : msPerDay = 86400000.
Proof. reflexivity. Qed.

Lemma dayOf_next (t : Z) :
  dayOf (lastMsOfDay t + 1 * msPerDay) * msPerDay = lastMsOfDay t + 1.
Proof.
  unfold lastMsOfDay, dayOf. rewrite msPerDay_value.
  div_lia.
Qed.

Lemma lastMsOfDay_next (t : Z) :
  lastMsOfDay (lastMsOfDay t + 1) = lastMsOfDay t + msPerDay.
Proof.
  unfold lastMsOfDay, dayOf. rewrite msPerDay_value.
  div_lia.
Qed.

Lemma lastMsOfDay_ge (t : Z) : t <= lastMsOfDay t.
Proof.
  unfold lastMsOfDay, dayOf. rewrite msPerDay_value.
  div_lia.
Qed.

Lemma segmentLoop_chain (fuel : nat) (cs e : Z) :
  (e - lastMsOfDay cs) / msPerDay + 1 <= Z.of_nat fuel ->
  exists segs,
    segmentLoop fuel (Time cs) (Time (lastMsOfDay cs)) (Time e) = Some segs
    /\ dayChain e cs segs.
Proof.
  revert cs. induction fuel as [|fuel IH]; intros cs Hfuel.
  - simpl. destruct (Z.ltb_spec (lastMsOfDay cs) e) as [Hlt|Hge].
    + exfalso. revert Hfuel. rewrite msPerDay_value.
      div_lia.
    + eexists. split; [done|]. by constructor.
  - simpl. destruct (Z.ltb_spec (lastMsOfDay cs) e) as [Hlt|Hge].
    + rewrite dayOf_next.
      change (dayOf (lastMsOfDay cs + 1) * msPerDay + (msPerDay - 1))
        with (lastMsOfDay (lastMsOfDay cs + 1)).
      destruct (IH (lastMsOfDay cs + 1)) as (segs & -> & Hchain).
      { rewrite lastMsOfDay_next. revert Hfuel. rewrite msPerDay_value.
        div_lia. }
      eexists. split; [done|]. by constructor.
    + eexists. split; [done|]. by constructor.
Qed.

Lemma daySegments_chain (s e : Z) :
  exists segs, daySegments (Time s) (Time e) = Some segs /\ dayChain e s segs.
Proof.
  unfold daySegments. simpl. apply segmentLoop_chain.
  unfold lastMsOfDay. lia.
Qed.

(** The loop always comes to an end within the iterations granted. *)
Lemma daySegments_total (start end_ : Date) : is_Some (daySegments start end_).
Proof.
  destruct start as [s|], end_ as [e|]; try (by eexists).
  destruct (daySegments_chain s e) as (segs & -> & _). by eexists.
Qed.

Section Chain.

Variable e : Z.


Lemma dayChain_last (cs : Z) (segs : list Segment) :
  dayChain e cs segs -> seg_end <$> list.last segs = Some (Time e).
Proof.
  induction 1 as [|cs segs Hlt Hchain IH]; [done|].
  destruct Hchain; simpl in *; done.
Qed.




End Chain.





(** ** Rendering the segments *)

Lemma labelWhen_sameTime (d x : Date) :
  exists l, labelWhen (sameTime d x) d = Some l
            /\ (sameTime d x = false -> l = None)
            /\ (sameTime d x = true ->
                exists t, d = Time t
                  /\ l = Some (formatTokens t yyyy_MM_dd,
                               formatTokens t HH_mm)).
Proof.
  destruct (sameTime d x) eqn:Hsame.
  - destruct d as [t|]; [|done]. eexists. split; [done|].
    split; [done|]. intros _. by exists t.
  - eexists. split; [done|]. by split.
Qed.

(** [renderSegment] does not throw: a label is formatted only for a date
    that passed the comparison of time values, hence a valid one. *)
Lemma renderSegment_Some (earliest latest : option Date) (s e : Date)
    (seg : Segment) :
  exists box,
    renderSegment earliest latest s e seg = Some box
    /\ backgroundColor box = segmentColor earliest seg
    /\ box_left box
       = calculateLeftPosition earliest latest (Some (seg_start seg))
    /\ box_width box
       = Percent (calculateWidth earliest latest (Some (seg_start seg))
                    (Some (seg_end seg)))
    /\ labelWhen (sameTime (seg_start seg) s) (seg_start seg)
       = Some (firstLabel box)
    /\ labelWhen (sameTime (seg_end seg) e) (seg_end seg)
       = Some (lastLabel box).
Proof.
  unfold renderSegment.
  destruct (labelWhen_sameTime (seg_start seg) s) as (l1 & -> & _).
  destruct (labelWhen_sameTime (seg_end seg) e) as (l2 & -> & _).
  simpl. eexists. by repeat split.
Qed.

(** The layout function returns for every input. *)
Lemma renderBarSegments_total (earliest latest start end_ : option Date) :
  is_Some (renderBarSegments earliest latest start end_).
Proof.
  unfold renderBarSegments.
  destruct start as [s|], end_ as [e|]; try by eexists.
  destruct (date_geb s e); [by eexists|].
  destruct (daySegments_total s e) as [segs ->]. simpl.
  apply fmap_is_Some, mapM_is_Some, Forall_forall. intros seg _.
  unfold compose.
  destruct (renderSegment_Some earliest latest s e seg) as (box & -> & _).
  by eexists.
Qed.

(** For set [start < end] the layout is one box per segment. *)
Lemma renderBarSegments_boxes (earliest latest : option Date) (s e : Z) :
  s < e ->
  exists segs boxes,
    daySegments (Time s) (Time e) = Some segs
    /\ renderBarSegments earliest latest (Some (Time s)) (Some (Time e))
       = Some (Bars boxes)
    /\ Forall2 (fun seg box =>
                  renderSegment earliest latest (Time s) (Time e) seg
                  = Some box)
               segs boxes.
Proof.
  intros Hlt.
  destruct (daySegments_total (Time s) (Time e)) as [segs Hsegs].
  destruct (renderBarSegments_total earliest latest (Some (Time s))
              (Some (Time e))) as [r Hr].
  exists segs. revert Hr. unfold renderBarSegments, date_geb.
  destruct (Z.leb_spec e s) as [?|_]; [lia|].
  rewrite Hsegs. simpl.
  destruct (mapM _ segs) as [boxes|] eqn:Hboxes; [|done].
  intros _. exists boxes. repeat split. by apply mapM_Some_1.
Qed.




(** The palette is walked from the day of [earliest], not from the start
    of the record: a record starting one day after the bound begins with
    the second colour, and the fifth day comes back to the first. *)
Example colours_from_earliest :
  (fun r => match r with Bars boxes => map backgroundColor boxes | _ => [] end)
    <$> renderBarSegments (Some (Time 0)) (Some (Time (6 * msPerDay)))
          (Some (Time msPerDay)) (Some (Time (5 * msPerDay - 1)))
  = Some [Some "#FDDE55"; Some "#1E88E5"; Some "#FBC02D"; Some "#03AED2"].
Proof. reflexivity. Qed.

(** C1.  The record from 2024-01-01 10:00 to 2024-01-03 14:00 is laid out
    in exactly three segments, whatever the bounds: the first starts at
    [start] and is labelled with the date and time of [start], the second
    spans 2024-01-02 from its first to its last millisecond and carries no
    label, the third ends at [end] and is labelled with the date and time
    of [end]; no other label is drawn. *)
Theorem sample_interval_layout (earliest latest : option Date) :
  daySegments jan1_1000 jan3_1400
  = Some [ {| seg_start := jan1_1000; seg_end := endOfDay jan1_1000 |};
           {| seg_start := startOfDay jan2_0000;
              seg_end := endOfDay jan2_0000 |};
           {| seg_start := startOfDay jan3_1400; seg_end := jan3_1400 |} ]
  /\ endOfDay jan2_0000 = localDate 2024 1 2 23 59 59 999
  /\ startOfDay jan2_0000 = jan2_0000
  /\ exists b1 b2 b3,
       renderBarSegments earliest latest (Some jan1_1000) (Some jan3_1400)
       = Some (Bars [b1; b2; b3])
       /\ firstLabel b1 = Some ("2024-01-01", "10:00")
       /\ lastLabel b1 = None
       /\ firstLabel b2 = None
       /\ lastLabel b2 = None
       /\ firstLabel b3 = None
       /\ lastLabel b3 = Some ("2024-01-03", "14:00").
Proof.
  split; [reflexivity|]. split; [reflexivity|]. split; [reflexivity|].
  eexists _, _, _. split.
  - unfold renderBarSegments.
    change (date_geb jan1_1000 jan3_1400) with false. cbv iota.
    change (daySegments jan1_1000 jan3_1400)
      with (Some [ {| seg_start := jan1_1000; seg_end := endOfDay jan1_1000 |};
                   {| seg_start := startOfDay jan2_0000;
                      seg_end := endOfDay jan2_0000 |};
                   {| seg_start := startOfDay jan3_1400;
                      seg_end := jan3_1400 |} ]).
    reflexivity.
  - repeat split; reflexivity.
Qed.

(** ** The derived bounds *)

Lemma fold_numMin_valid (ts : list Z) (t0 : Z) :
  exists lo, fold_left numMin (map getTime (map Time ts)) (Some t0) = Some lo
             /\ In lo (t0 :: ts) /\ Forall (fun t => lo <= t) (t0 :: ts).
Proof.
  revert t0. induction ts as [|t ts IH]; intros t0; simpl.
  - exists t0. split; [done|]. split; [by left|]. repeat constructor. lia.
  - destruct (IH (Z.min t0 t)) as (lo & -> & Hin & Hall).
    exists lo. split; [done|].
    apply Forall_cons_1 in Hall as [Hlo Hall]. split.
    + destruct Hin as [<-|Hin]; [|by right; right].
      destruct (Z.min_spec t0 t) as [[_ ->]|[_ ->]]; [by left|by right; left].
    + repeat constructor; [lia..|done].
Qed.

Lemma fold_numMax_valid (ts : list Z) (t0 : Z) :
  exists hi, fold_left numMax (map getTime (map Time ts)) (Some t0) = Some hi
             /\ In hi (t0 :: ts) /\ Forall (fun t => t <= hi) (t0 :: ts).
Proof.
  revert t0. induction ts as [|t ts IH]; intros t0; simpl.
  - exists t0. split; [done|]. split; [by left|]. repeat constructor. lia.
  - destruct (IH (Z.max t0 t)) as (hi & -> & Hin & Hall).
    exists hi. split; [done|].
    apply Forall_cons_1 in Hall as [Hhi Hall]. split.
    + destruct Hin as [<-|Hin]; [|by right; right].
      destruct (Z.max_spec t0 t) as [[_ ->]|[_ ->]]; [by right; left|by left].
    + repeat constructor; [lia..|done].
Qed.

(** One Invalid Date among the timestamps makes both bounds invalid. *)
Lemma fold_numMin_invalid (l : list (option Z)) :
  fold_left numMin l None = None.
Proof. induction l; simpl; [done|]. by destruct a. Qed.

Lemma boundsEffect_rows (st : App) : rows (boundsEffect st) = rows st.
Proof.
  unfold boundsEffect. destruct (rows st) eqn:E; [done|].
  by destruct (definedDates _).
Qed.

(** The effect computes both bounds anew when some timestamp is defined,
    and otherwise leaves them as they are. *)
Lemma boundsEffect_dated (st : App) (ts : list Z) :
  ts <> [] -> definedDates (rows st) = map Time ts ->
  exists lo hi,
    earliest (boundsEffect st) = Some (Time lo)
    /\ latest (boundsEffect st) = Some (Time hi)
    /\ In lo ts /\ In hi ts /\ Forall (fun t => lo <= t <= hi) ts.
Proof.
  intros Hne Hdates. unfold boundsEffect.
  destruct (rows st) as [|r rs] eqn:Hrows.
  { destruct ts; [done|]. discriminate. }
  rewrite Hdates. destruct ts as [|t0 ts]; [done|]. simpl.
  destruct (fold_numMin_valid ts t0) as (lo & -> & Hlo & Hall_lo).
  destruct (fold_numMax_valid ts t0) as (hi & -> & Hhi & Hall_hi).
  exists lo, hi. simpl. repeat split; try done.
  rewrite Forall_forall in Hall_lo, Hall_hi. apply Forall_forall.
  intros t Ht. split; [by apply Hall_lo|by apply Hall_hi].
Qed.

Lemma boundsEffect_undated (st : App) :
  definedDates (rows st) = [] -> boundsEffect st = st.
Proof.
  intros Hdates. unfold boundsEffect. rewrite Hdates.
  by destruct (rows st).
Qed.

Section Bounds.

Variable parseISO : string -> Date.

Lemma reachable_run (l : list action) (st : App) :
  reachable parseISO st -> reachable parseISO (run parseISO l st).
Proof.
  revert st. induction l as [|a l IH]; intros st Hst; simpl; [done|].
  apply IH. by constructor.
Qed.

Lemma dispatch_rows_changed (a : action) (st : App) :
  dispatch parseISO a st = st
  \/ exists st', dispatch parseISO a st = boundsEffect st'
                 /\ earliest st' = earliest st /\ latest st' = latest st.
Proof.
  unfold dispatch. destruct (handler parseISO a st) as [u|]; [|by left].
  right. eexists. split; [done|]. by destruct a.
Qed.

(** C7 (amended).  In every state reached by the row operations, if some
    record has a defined timestamp and the defined timestamps are valid
    dates, [earliest] is their minimum and [latest] their maximum.  An
    operation after which no record has a defined timestamp leaves both
    bounds as they were before it. *)
Theorem bounds_of_reachable (st : App) :
  reachable parseISO st ->
  (forall ts, ts <> [] -> definedDates (rows st) = map Time ts ->
     exists lo hi,
       earliest st = Some (Time lo) /\ latest st = Some (Time hi)
       /\ In lo ts /\ In hi ts /\ Forall (fun t => lo <= t <= hi) ts)
  /\ (forall a, definedDates (rows (dispatch parseISO a st)) = [] ->
        earliest (dispatch parseISO a st) = earliest st
        /\ latest (dispatch parseISO a st) = latest st).
Proof.
  intros Hreach. split.
  - induction Hreach as [|st a Hreach IH]; intros ts Hne Hdates.
    + destruct ts; [done|]. discriminate.
    + destruct (dispatch_rows_changed a st) as [Hsame|(st' & Hst' & _)].
      * rewrite Hsame in *. by apply IH.
      * rewrite Hst' in *. rewrite boundsEffect_rows in Hdates.
        by apply boundsEffect_dated.
  - intros a Hdates.
    destruct (dispatch_rows_changed a st) as [->|(st' & Hst' & He & Hl)].
    + done.
    + rewrite Hst' in *. rewrite boundsEffect_rows in Hdates.
      rewrite boundsEffect_undated by done. done.
Qed.

End Bounds.

Lemma bounds_of_reachable_witness :
  reachable parseDateTime datedState
  /\ [1704290400000; 1704103200000] <> []
  /\ definedDates (rows datedState)
     = map Time [1704290400000; 1704103200000]
  /\ (exists lo hi,
        earliest datedState = Some (Time lo)
        /\ latest datedState = Some (Time hi)
        /\ In lo [1704290400000; 1704103200000]
        /\ In hi [1704290400000; 1704103200000]
        /\ Forall (fun t => lo <= t <= hi) [1704290400000; 1704103200000])
  /\ definedDates (rows (dispatch parseDateTime (DeleteRow 0) datedState)) = []
  /\ earliest (dispatch parseDateTime (DeleteRow 0) datedState)
     = earliest datedState
  /\ latest (dispatch parseDateTime (DeleteRow 0) datedState)
     = latest datedState.
Proof.
  assert (Hreach : reachable parseDateTime datedState)
    by (apply reachable_run; constructor).
  assert (Hne : [1704290400000; 1704103200000] <> []) by discriminate.
  assert (Hdates : definedDates (rows datedState)
                   = map Time [1704290400000; 1704103200000]) by reflexivity.
  assert (Hgone : definedDates
                    (rows (dispatch parseDateTime (DeleteRow 0) datedState))
                  = []) by reflexivity.
  pose proof (bounds_of_reachable parseDateTime datedState Hreach)
    as [Hdated Hundated].
  exact (conj Hreach (conj Hne (conj Hdates
           (conj (Hdated _ Hne Hdates)
              (conj Hgone (Hundated (DeleteRow 0) Hgone)))))).
Defined.

Example bounds_of_dated_state :
  earliest datedState = Some jan1_1000 /\ latest datedState = Some jan3_1400.
Proof. split; reflexivity. Qed.

(** C7 as stated fails: after a dated row is added and deleted again, no
    record is left and the bounds still hold its timestamp. *)
Lemma bounds_survive_deletion :
  reachable parseDateTime emptiedState
  /\ rows emptiedState = []
  /\ definedDates (rows emptiedState) = []
  /\ earliest emptiedState = Some jan1_1000
  /\ latest emptiedState = Some jan1_1000
  /\ earliest emptiedState <> None.
Proof.
  split; [apply reachable_run; constructor|].
  repeat split; try reflexivity. discriminate.
Qed.

(** The same holds when the timestamp is cleared in place. *)
Example bounds_survive_clearing :
  let st := run parseDateTime
              [AddRow; Change 0 Fstart (Some jan1_1000); Change 0 Fstart None]
              initial in
  definedDates (rows st) = [] /\ earliest st = Some jan1_1000.
Proof. split; reflexivity. Qed.

(** An Invalid Date among the timestamps, as an import leaves it for a
    text that is no timestamp, makes both bounds Invalid Dates. *)
Example bounds_with_invalid_date :
  let st := run parseDateTime
              [Import ("a" +:+ String TAB ("1.2.3.4" +:+ String TAB
                         ("2024-01-01T10:00" +:+ String TAB "soon")))]
              initial in
  definedDates (rows st) = [jan1_1000; InvalidDate]
  /\ earliest st = Some InvalidDate /\ latest st = Some InvalidDate.
Proof. repeat split; reflexivity. Qed.

(** ** References to [errors] objects stay valid *)

Lemma refsValid_grow (h h' : list Errors) (rs : list Row) :
  (length h <= length h')%nat -> refsValid h rs -> refsValid h' rs.
Proof.
  unfold refsValid. rewrite !Forall_forall. intros Hlen Hall row Hrow.
  specialize (Hall row Hrow). lia.
Qed.

Lemma Forall_filterFrom {A} (P : A -> Prop) (p : A -> nat -> bool)
    (k : nat) (l : list A) :
  Forall P l -> Forall P (filterFrom p k l).
Proof.
  intros Hall. revert k. induction Hall as [|x l Hx _ IH]; intros k; simpl.
  - constructor.
  - destruct (p x k); [constructor|]; auto.
Qed.

Lemma Forall_List_filter {A} (P : A -> Prop) (p : A -> bool) (l : list A) :
  Forall P l -> Forall P (List.filter p l).
Proof.
  induction 1 as [|x l Hx _ IH]; simpl; [constructor|].
  destruct (p x); [constructor|]; auto.
Qed.

Section References.

Variable parseISO : string -> Date.

Lemma handler_refsValid (a : action) (st : App) (u : Update) :
  refsValid (heap st) (rows st) -> handler parseISO a st = Some u ->
  refsValid u.1 u.2.
Proof.
  intros Hst Hu. destruct a; simpl in Hu.
  - injection Hu as <-. simpl. apply Forall_app. split.
    + eapply refsValid_grow; [|done]. rewrite length_app. lia.
    + repeat constructor. simpl. rewrite length_app. simpl. lia.
  - unfold handleChange in Hu.
    destruct (rows st !! index) as [row|] eqn:Hrow; [|done]. simpl in Hu.
    destruct (heap st !! errors row) as [e|] eqn:He; [|done]. simpl in Hu.
    injection Hu as <-. simpl. unfold refsValid.
    apply Forall_insert.
    + eapply refsValid_grow; [|done]. by rewrite length_insert.
    + rewrite length_insert.
      assert (errors (setField f value row) = errors row) as ->
        by by destruct f.
      by eapply lookup_lt_Some.
  - injection Hu as <-. simpl. by apply Forall_filterFrom.
  - injection Hu as <-. simpl. by apply Forall_List_filter.
  - injection Hu as <-. simpl. apply Forall_app. split; [done|].
    apply Forall_map. by apply Forall_List_filter.
  - injection Hu as <-. simpl. by apply Forall_map.
  - unfold handleDragEnd in Hu.
    destruct (destination result) as [dst|]; [|done]. simpl in Hu.
    destruct (rows st !! source result) as [row|] eqn:Hrow; [|done].
    injection Hu as <-. simpl. unfold spliceIn, refsValid.
    assert (Hdel : refsValid (heap st) (delete (source result) (rows st))).
    { rewrite delete_take_drop. apply Forall_app.
      split; [by apply Forall_take|by apply Forall_drop]. }
    apply Forall_app. split; [by apply Forall_take|].
    constructor; [|by apply Forall_drop].
    unfold refsValid in Hst. rewrite Forall_lookup in Hst. by eapply Hst.
  - injection Hu as <-. simpl. unfold refsValid.
    apply Forall_lookup. intros i row Hrow.
    apply list_lookup_imap_Some in Hrow as (line & Hline & ->).
    simpl. rewrite length_app, length_replicate.
    apply lookup_lt_Some in Hline. lia.
Qed.

Lemma reachable_refsValid (st : App) :
  reachable parseISO st -> refsValid (heap st) (rows st).
Proof.
  induction 1 as [|st a _ IH]; [constructor|].
  unfold dispatch. destruct (handler parseISO a st) as [u|] eqn:Hu; [|done].
  pose proof (handler_refsValid a st u IH Hu) as Hvalid.
  assert (Heff : forall s, heap (boundsEffect s) = heap s).
  { intros s. unfold boundsEffect. destruct (rows s); [done|].
    by destruct (definedDates _). }
  by rewrite Heff, boundsEffect_rows.
Qed.

(** In a reachable state an edit fails only for an index out of range. *)
Lemma handleChange_in_range (st : App) (index : nat) (f : field)
    (value : fieldType f) :
  reachable parseISO st -> (index < length (rows st))%nat ->
  is_Some (handleChange index f value st).
Proof.
  intros Hreach Hindex.
  destruct (lookup_lt_is_Some_2 _ _ Hindex) as [row Hrow].
  pose proof (reachable_refsValid st Hreach) as Hvalid.
  unfold refsValid in Hvalid. rewrite Forall_lookup in Hvalid.
  destruct (lookup_lt_is_Some_2 _ _ (Hvalid _ _ Hrow)) as [e He].
  unfold handleChange. rewrite Hrow. simpl. rewrite He. by eexists.
Qed.

End References.

(** ** Export followed by import *)

Section Splitting.

Implicit Types (a b s : string) (c : ascii).

Lemma splitChar_free c a : freeOf c a = true -> splitChar c a = [a].
Proof.
  induction a as [|x a IH]; simpl; [done|].
  intros [Hx Ha]%andb_true_iff. apply negb_true_iff in Hx.
  rewrite Hx, IH by done. done.
Qed.

Lemma splitChar_cell c a b :
  freeOf c a = true -> splitChar c (a +:+ String c b) = a :: splitChar c b.
Proof.
  induction a as [|x a IH]; simpl.
  - intros _. by rewrite Ascii.eqb_refl.
  - intros [Hx Ha]%andb_true_iff. apply negb_true_iff in Hx.
    rewrite Hx, IH by done. done.
Qed.

Lemma splitLines_free a : freeOf LF a = true -> splitLines a = [a].
Proof.
  induction a as [|x a IH]; simpl; [done|].
  intros [Hx Ha]%andb_true_iff. apply negb_true_iff in Hx.
  rewrite Hx. specialize (IH Ha).
  destruct (Ascii.eqb x CR); [|by rewrite IH].
  destruct a as [|y a]; [done|].
  simpl in Ha. apply andb_true_iff in Ha as [Hy _].
  apply negb_true_iff in Hy. rewrite Hy. by rewrite IH.
Qed.

Lemma splitLines_line a s :
  freeOf LF a = true ->
  splitLines (a +:+ String CR (String LF s)) = a :: splitLines s.
Proof.
  induction a as [|x a IH].
  - intros _. reflexivity.
  - intros [Hx Ha]%andb_true_iff. apply negb_true_iff in Hx.
    specialize (IH Ha).
    change (String x a +:+ String CR (String LF s))
      with (String x (a +:+ String CR (String LF s))).
    cbn [splitLines]. rewrite Hx.
    destruct (Ascii.eqb x CR); [|by rewrite IH].
    destruct a as [|y a].
    + change (EmptyString +:+ String CR (String LF s))
        with (String CR (String LF s)) in *.
      change (Ascii.eqb CR LF) with false. cbv iota. by rewrite IH.
    + change (String y a +:+ String CR (String LF s))
        with (String y (a +:+ String CR (String LF s))) in *.
      simpl in Ha. apply andb_true_iff in Ha as [Hy _].
      apply negb_true_iff in Hy. rewrite Hy. by rewrite IH.
Qed.

Lemma splitLines_join (ls : list string) :
  ls <> [] -> Forall (fun l => freeOf LF l = true) ls ->
  splitLines (join CRLF ls) = ls.
Proof.
  induction ls as [|l ls IH]; [done|]. intros _ Hall.
  apply Forall_cons_1 in Hall as [Hl Hall].
  destruct ls as [|l' ls].
  - simpl. by apply splitLines_free.
  - change (join CRLF (l :: l' :: ls))
      with (l +:+ CRLF +:+ join CRLF (l' :: ls)).
    change (CRLF +:+ ?s) with (String CR (String LF s)).
    rewrite splitLines_line by done. f_equal. by apply IH.
Qed.

Lemma freeOf_app c a b :
  freeOf c (a +:+ b) = freeOf c a && freeOf c b.
Proof.
  induction a as [|x a IH]; simpl; [done|]. by rewrite IH, andb_assoc.
Qed.

Lemma hasInk_app a b : hasInk (a +:+ b) = hasInk a || hasInk b.
Proof.
  induction a as [|x a IH]; simpl; [done|]. by rewrite IH, orb_assoc.
Qed.

Lemma hasInk_trimStart s :
  hasInk s = true ->
  exists x s', trimStart s = String x s' /\ isWhiteSpace x = false.
Proof.
  induction s as [|x s IH]; simpl; [done|].
  destruct (isWhiteSpace x) eqn:Hx; simpl; [done|]. intros _. eauto.
Qed.

Lemma trimEnd_ink x s :
  isWhiteSpace x = false -> trimEnd (String x s) <> EmptyString.
Proof. intros Hx. simpl. rewrite Hx. by destruct (trimEnd s). Qed.

(** A line with a character that is no white space is kept by the
    import. *)
Lemma hasInk_not_blank s :
  hasInk s = true -> negb (String.eqb (trim s) EmptyString) = true.
Proof.
  intros (x & s' & Hs & Hx)%hasInk_trimStart. unfold trim. rewrite Hs.
  apply negb_true_iff, String.eqb_neq. by apply trimEnd_ink.
Qed.

End Splitting.

(** *** Digits *)

Lemma holdsFrom_spec (test : Z -> bool) (n : nat) (k j : Z) :
  holdsFrom test k n = true -> k <= j < k + Z.of_nat n -> test j = true.
Proof.
  revert k. induction n as [|n IH]; intros k; simpl; [lia|].
  intros [Hk Hrest]%andb_true_iff Hj.
  destruct (Z.eq_dec j k) as [->|Hne]; [done|].
  apply (IH (k + 1)); [done|lia].
Qed.

Lemma holdsBelow_spec (test : Z -> bool) (n k : Z) :
  holdsBelow test n = true -> 0 <= k < n -> test k = true.
Proof.
  unfold holdsBelow. intros Hall Hk.
  apply (holdsFrom_spec test (Z.to_nat n) 0); [done|lia].
Qed.

Lemma addLeadingZeros_two (n : Z) :
  0 <= n < 100 -> addLeadingZeros n 2 = twoChars n.
Proof.
  intros Hn. apply String.eqb_eq.
  apply (holdsBelow_spec
           (fun n => String.eqb (addLeadingZeros n 2) (twoChars n)) 100);
    [vm_compute; reflexivity|lia].
Qed.

Lemma addLeadingZeros_four (n : Z) :
  0 <= n < 10000 -> addLeadingZeros n 4 = fourChars n.
Proof.
  intros Hn. apply String.eqb_eq.
  apply (holdsBelow_spec
           (fun n => String.eqb (addLeadingZeros n 4) (fourChars n)) 10000);
    [vm_compute; reflexivity|lia].
Qed.

Lemma digitChar_facts (k : Z) :
  0 <= k <= 9 ->
  digitValue (digitChar k) = Some k
  /\ Ascii.eqb (digitChar k) TAB = false
  /\ Ascii.eqb (digitChar k) LF = false
  /\ isWhiteSpace (digitChar k) = false.
Proof.
  intros Hk. assert (Hk' : 0 <= k < 10) by lia.
  clear Hk. rename Hk' into Hk.
  apply (holdsBelow_spec
           (fun k => match digitValue (digitChar k) with
                     | Some v => v =? k
                     | None => false
                     end
                     && negb (Ascii.eqb (digitChar k) TAB)
                     && negb (Ascii.eqb (digitChar k) LF)
                     && negb (isWhiteSpace (digitChar k))) 10) in Hk;
    [|vm_compute; reflexivity].
  repeat (apply andb_true_iff in Hk as [Hk ?]).
  destruct (digitValue (digitChar k)) as [v|]; [|done].
  apply Z.eqb_eq in Hk as ->.
  repeat split; by apply negb_true_iff.
Qed.

Lemma twoDigits_twoChars (n : Z) :
  0 <= n < 100 ->
  twoDigits (digitChar (n / 10)) (digitChar (n mod 10)) = Some n.
Proof.
  intros Hn. unfold twoDigits.
  destruct (digitChar_facts (n / 10)) as (-> & _);
    [div_lia|].
  destruct (digitChar_facts (n mod 10)) as (-> & _);
    [div_lia|].
  simpl. f_equal. div_lia.
Qed.

Lemma fourDigits_fourChars (n : Z) :
  0 <= n < 10000 ->
  fourDigits (digitChar (n / 1000)) (digitChar (n / 100 mod 10))
             (digitChar (n / 10 mod 10)) (digitChar (n mod 10)) = Some n.
Proof.
  intros Hn. unfold fourDigits, twoDigits.
  destruct (digitChar_facts (n / 1000)) as (-> & _);
    [div_lia|].
  destruct (digitChar_facts (n / 100 mod 10)) as (-> & _);
    [div_lia|].
  destruct (digitChar_facts (n / 10 mod 10)) as (-> & _);
    [div_lia|].
  destruct (digitChar_facts (n mod 10)) as (-> & _);
    [div_lia|].
  simpl. f_equal. div_lia.
Qed.

(** *** The calendar *)

Lemma cycleDayTest_all (doe : Z) :
  0 <= doe < 146097 -> cycleDayTest doe = true.
Proof.
  intros Hdoe.
  apply (holdsBelow_spec cycleDayTest 146097);
    [vm_compute; reflexivity|lia].
Qed.

Lemma civil_from_days_cycle (z : Z) :
  civil_from_days z
  = let '(y, m, d) := civil_from_days ((z + 719468) mod 146097 - 719468) in
    (y + 400 * ((z + 719468) / 146097), m, d).
Proof.
  set (k := (z + 719468) / 146097).
  set (doe := (z + 719468) mod 146097).
  assert (H1 : z + 719468 - k * 146097 = doe)
    by (unfold k, doe; div_lia).
  assert (H2 : doe - 719468 + 719468 = doe) by lia.
  assert (H3 : doe / 146097 = 0)
    by (apply Z.div_small; unfold doe; div_lia).
  unfold civil_from_days. cbv zeta. fold k.
  rewrite H1, H2, H3. rewrite Z.mul_0_l, Z.sub_0_r.
  destruct (_ <=? 2); f_equal; f_equal; lia.
Qed.

Lemma days_from_civil_cycle (y m d k : Z) :
  days_from_civil (y + 400 * k) m d = days_from_civil y m d + 146097 * k.
Proof.
  unfold days_from_civil. cbv zeta.
  destruct (m <=? 2); div_lia.
Qed.

Lemma validateDate_cycle (y m d k : Z) :
  validateDate (y + 400 * k) m d = validateDate y m d.
Proof.
  unfold validateDate, daysInMonth, isLeapYearIndex.
  assert ((y + 400 * k) mod 400 = y mod 400) as ->
    by (div_lia).
  assert ((y + 400 * k) mod 4 = y mod 4) as ->
    by (div_lia).
  assert ((y + 400 * k) mod 100 = y mod 100) as ->
    by (div_lia).
  done.
Qed.

(** The calendar date of a day number leads back to the day number and
    is a date of the calendar. *)
Lemma civil_round_trip (z : Z) :
  days_from_civil (civil_from_days z).1.1 (civil_from_days z).1.2
                  (civil_from_days z).2 = z
  /\ validateDate (civil_from_days z).1.1 (civil_from_days z).1.2
                  (civil_from_days z).2 = true.
Proof.
  rewrite civil_from_days_cycle.
  set (k := (z + 719468) / 146097).
  set (doe := (z + 719468) mod 146097).
  assert (Hdoe : 0 <= doe < 146097)
    by (unfold doe; div_lia).
  pose proof (cycleDayTest_all doe Hdoe) as Htest.
  unfold cycleDayTest in Htest. cbv zeta in Htest.
  destruct (civil_from_days (doe - 719468)) as [[y m] d]. simpl.
  apply andb_true_iff in Htest as [Hday Hvalid].
  apply Z.eqb_eq in Hday.
  rewrite days_from_civil_cycle, validateDate_cycle, Hday.
  split; [|done]. unfold k, doe. div_lia.
Qed.

Lemma validateDate_range (y m d : Z) :
  validateDate y m d = true -> 1 <= m <= 12 /\ 1 <= d <= 31.
Proof.
  unfold validateDate, daysInMonth. intros H.
  repeat (apply andb_true_iff in H as [H ?]).
  repeat match goal with
         | H : (_ <=? _) = true |- _ => apply Z.leb_le in H
         end.
  split; [lia|]. split; [lia|].
  destruct (m =? 2); [destruct (isLeapYearIndex y); lia|].
  destruct (_ || _); lia.
Qed.

(** *** Writing and reading a timestamp *)

Lemma timeInDay_fields (t : Z) :
  t mod 1000 = 0 ->
  0 <= getHours t < 24 /\ 0 <= getMinutes t < 60 /\ 0 <= getSeconds t < 60
  /\ dayOf t * msPerDay
     + (getHours t * 3600000 + getMinutes t * 60000 + getSeconds t * 1000) = t.
Proof.
  unfold getHours, getMinutes, getSeconds, timeInDay, dayOf.
  rewrite msPerDay_value. intros Hms.
  div_lia.
Qed.

(** On a writable time value [format] produces the nineteen characters
    of [stamp]. *)
Lemma formatTokens_stamp (t : Z) :
  isWritable t ->
  formatTokens t yyyy_MM_dd_HH_mm_ss
  = stamp (getFullYear t) (getMonth t + 1) (getDate t)
          (getHours t) (getMinutes t) (getSeconds t).
Proof.
  intros [Hms Hyear].
  destruct (timeInDay_fields t Hms) as (Hh & Hm & Hs & _).
  destruct (civil_round_trip (dayOf t)) as [_ Hvalid].
  apply validateDate_range in Hvalid as [Hmonth Hday].
  unfold yyyy_MM_dd_HH_mm_ss, stamp. cbn [formatTokens formatToken].
  destruct (Z.ltb_spec 0 (getFullYear t)) as [_|?]; [|lia].
  rewrite addLeadingZeros_four by lia.
  rewrite !addLeadingZeros_two; try done; unfold getMonth, getDate; lia.
Qed.

Lemma twoChars_free (c : ascii) (n : Z) :
  0 <= n < 100 -> c = TAB \/ c = LF -> freeOf c (twoChars n) = true.
Proof.
  intros Hn Hc. unfold twoChars. simpl.
  destruct (digitChar_facts (n / 10)) as (_ & H1 & H2 & _);
    [div_lia|].
  destruct (digitChar_facts (n mod 10)) as (_ & H3 & H4 & _);
    [div_lia|].
  destruct Hc as [-> | ->]; by rewrite ?H1, ?H2, ?H3, ?H4.
Qed.

Lemma fourChars_free (c : ascii) (n : Z) :
  0 <= n < 10000 -> c = TAB \/ c = LF -> freeOf c (fourChars n) = true.
Proof.
  intros Hn Hc. unfold fourChars. simpl.
  destruct (digitChar_facts (n / 1000)) as (_ & H1 & H2 & _);
    [div_lia|].
  destruct (digitChar_facts (n / 100 mod 10)) as (_ & H3 & H4 & _);
    [div_lia|].
  destruct (digitChar_facts (n / 10 mod 10)) as (_ & H5 & H6 & _);
    [div_lia|].
  destruct (digitChar_facts (n mod 10)) as (_ & H7 & H8 & _);
    [div_lia|].
  destruct Hc as [-> | ->];
    by rewrite ?H1, ?H2, ?H3, ?H4, ?H5, ?H6, ?H7, ?H8.
Qed.

Section Stamp.

Variables y m d hh mm ss : Z.
Hypothesis year_range : 0 <= y < 10000.
Hypothesis month_range : 0 <= m < 100.
Hypothesis day_range : 0 <= d < 100.
Hypothesis hours_range : 0 <= hh < 100.
Hypothesis minutes_range : 0 <= mm < 100.
Hypothesis seconds_range : 0 <= ss < 100.

Lemma stamp_free (c : ascii) :
  c = TAB \/ c = LF -> freeOf c (stamp y m d hh mm ss) = true.
Proof.
  intros Hc. unfold stamp. rewrite !freeOf_app.
  rewrite fourChars_free, !twoChars_free by done.
  destruct Hc as [-> | ->]; reflexivity.
Qed.

Lemma stamp_hasInk : hasInk (stamp y m d hh mm ss) = true.
Proof.
  unfold stamp, fourChars. simpl.
  destruct (digitChar_facts (y / 1000)) as (_ & _ & _ & ->);
    [div_lia|]. done.
Qed.

Lemma stamp_not_empty : stamp y m d hh mm ss <> EmptyString.
Proof. unfold stamp, fourChars. simpl. discriminate. Qed.

(** The reader splits [stamp] into its six numbers again. *)
Lemma parseDateTimeValue_stamp :
  parseDateTimeValue (stamp y m d hh mm ss)
  = if validateDate y m d && validateTime hh mm ss
    then Some (days_from_civil y m d * msPerDay
               + (hh * 3600000 + mm * 60000 + ss * 1000))
    else None.
Proof.
  unfold stamp, fourChars, twoChars. cbv [String.append].
  unfold parseDateTimeValue, parseTime.
  rewrite fourDigits_fourChars, !twoDigits_twoChars by done.
  change (Ascii.eqb "-" "-") with true.
  change (Ascii.eqb ":" ":") with true.
  change (Ascii.eqb " " "T") with false.
  change (Ascii.eqb " " " ") with true.
  cbn [mbind option_bind orb andb].
  destruct (validateTime hh mm ss); cbn [mbind option_bind];
    destruct (validateDate y m d); reflexivity.
Qed.

End Stamp.

(** [parseDateTime] reads back what [format] writes for a writable time
    value. *)
Lemma parseDateTime_format (t : Z) :
  isWritable t ->
  parseDateTime (formatTokens t yyyy_MM_dd_HH_mm_ss) = Time t.
Proof.
  intros Hw. rewrite formatTokens_stamp by done. destruct Hw as [Hms Hyear].
  destruct (timeInDay_fields t Hms) as (Hh & Hm & Hs & Ht).
  destruct (civil_round_trip (dayOf t)) as [Hdays Hvalid].
  pose proof (validateDate_range _ _ _ Hvalid) as [Hmonth Hday].
  unfold parseDateTime.
  rewrite parseDateTimeValue_stamp;
    try (unfold getMonth, getDate, getFullYear in *; lia).
  unfold getFullYear, getMonth, getDate.
  replace ((civil_from_days (dayOf t)).1.2 - 1 + 1)
    with ((civil_from_days (dayOf t)).1.2) by lia.
  rewrite Hvalid, Hdays.
  assert (validateTime (getHours t) (getMinutes t) (getSeconds t) = true) as ->.
  { unfold validateTime.
    destruct (Z.eqb_spec (getHours t) 24) as [?|_]; [lia|].
    repeat (apply andb_true_iff; split); apply Z.ltb_lt; lia. }
  simpl. by rewrite Ht.
Qed.

(** *** The round trip *)

Lemma written_facts (d : option Date) :
  isWritableDate d ->
  formatOptional d = Some (written d)
  /\ freeOf TAB (written d) = true
  /\ freeOf LF (written d) = true
  /\ (d <> None -> hasInk (written d) = true /\ written d <> EmptyString).
Proof.
  destruct d as [[t|]|]; [|done|by intros _].
  unfold isWritableDate, formatOptional, written, format.
  intros Hw. rewrite (formatTokens_stamp t Hw). destruct Hw as [Hms Hyear].
  destruct (timeInDay_fields t Hms) as (Hh & Hm & Hs & _).
  destruct (civil_round_trip (dayOf t)) as [_ Hvalid].
  apply validateDate_range in Hvalid as [Hmonth Hday].
  assert (0 <= getMonth t + 1 < 100 /\ 0 <= getDate t < 100) as [? ?]
    by (unfold getMonth, getDate; lia).
  split; [done|].
  split; [apply stamp_free; (lia || by left)|].
  split; [apply stamp_free; (lia || by right)|].
  intros _. split; [apply stamp_hasInk; lia|apply stamp_not_empty].
Qed.

Lemma exportLine_portable (row : Row) :
  isPortable row -> exportLine row = Some (lineOf row).
Proof.
  intros (_ & _ & Hs & He & _). unfold exportLine, lineOf.
  destruct (written_facts _ Hs) as (-> & _).
  destruct (written_facts _ He) as (-> & _). done.
Qed.

Lemma lineOf_kept (row : Row) :
  isPortable row ->
  freeOf LF (lineOf row) = true /\ hasInk (lineOf row) = true.
Proof.
  intros ([_ Hn] & [_ Hi] & Hs & He & Hink). unfold lineOf.
  destruct (written_facts _ Hs) as (_ & _ & Hs1 & Hs2).
  destruct (written_facts _ He) as (_ & _ & He1 & He2).
  split.
  - rewrite freeOf_app. simpl. rewrite freeOf_app. simpl.
    rewrite freeOf_app. simpl. by rewrite Hn, Hi, Hs1, He1.
  - rewrite hasInk_app. simpl. rewrite hasInk_app. simpl.
    rewrite hasInk_app. simpl.
    destruct Hink as [->|[->|[Hset|Hset]]];
      rewrite ?orb_true_r; try done.
    + destruct (Hs2 Hset) as [-> _]. by rewrite ?orb_true_r.
    + destruct (He2 Hset) as [-> _]. by rewrite ?orb_true_r.
Qed.

Lemma mapM_exportLine (rs : list Row) :
  Forall isPortable rs -> mapM exportLine rs = Some (map lineOf rs).
Proof.
  intros Hall. apply mapM_Some. induction Hall as [|row rs Hrow _ IH].
  - constructor.
  - simpl. constructor; [by apply exportLine_portable|done].
Qed.

Lemma importLines_join (ls : list string) :
  Forall (fun l => freeOf LF l = true /\ hasInk l = true) ls ->
  List.filter (fun line => negb (String.eqb (trim line) EmptyString))
              (splitLines (join CRLF ls)) = ls.
Proof.
  intros Hall. destruct ls as [|l ls]; [reflexivity|].
  rewrite splitLines_join;
    [|done|apply Forall_forall; intros x Hx;
           rewrite Forall_forall in Hall; by destruct (Hall x Hx)].
  induction Hall as [|x xs [_ Hx] _ IH]; [done|].
  cbn [List.filter]. rewrite hasInk_not_blank by done. by rewrite IH.
Qed.

Section ExportImport.

Variable parseISO : string -> Date.

(** What the statement needs of [parseISO]: it reads back the text that
    [format] writes for a writable time value. *)
Hypothesis parseISO_format :
  forall t, isWritable t ->
    parseISO (formatTokens t yyyy_MM_dd_HH_mm_ss) = Time t.

Lemma importDate_written (d : option Date) :
  isWritableDate d -> importDate parseISO (Some (written d)) = d.
Proof.
  intros Hw. destruct (written_facts d Hw) as (_ & _ & _ & Hset).
  destruct d as [[t|]|]; [|done|done].
  destruct Hset as [_ Hne]; [done|].
  unfold written in *. unfold importDate.
  destruct (formatTokens t yyyy_MM_dd_HH_mm_ss) eqn:E; [done|].
  rewrite <- E. by rewrite parseISO_format.
Qed.

Lemma importLine_lineOf (ref : nat) (row : Row) :
  isPortable row ->
  content (importLine parseISO ref (lineOf row)) = content row.
Proof.
  intros ([Hn _] & [Hi _] & Hs & He & _).
  destruct (written_facts _ Hs) as (_ & Hs1 & _).
  destruct (written_facts _ He) as (_ & He1 & _).
  unfold importLine, lineOf.
  rewrite !splitChar_cell by done. rewrite splitChar_free by done.
  unfold content. cbn -[written importDate].
  by rewrite !importDate_written.
Qed.

Lemma imap_importLine (rs : list Row) (f : nat -> nat) :
  Forall isPortable rs ->
  map content (imap (fun i line => importLine parseISO (f i) line)
                    (map lineOf rs))
  = map content rs.
Proof.
  intros Hall. revert f. induction Hall as [|row rs Hrow _ IH]; intros f.
  - done.
  - simpl. rewrite importLine_lineOf by done. f_equal.
    apply (IH (f ∘ S)).
Qed.

(** C2 (amended).  Let [parseISO] read back what [format] writes, and
    take records whose name and address hold no TAB and no LF, whose
    timestamps are unset or valid dates on a whole second in the years 1
    to 9999, and whose line is not blank (a timestamp is set, or the name
    or the address has a visible character).  The export succeeds, and
    importing its text yields records with the same name, address, start
    and end, in the same order; an unset timestamp comes back unset. *)
Theorem export_import_round_trip (rs : list Row) (st : App) :
  Forall isPortable rs ->
  exists text,
    handleExport rs = Some text
    /\ map content (handleImport parseISO text st).2 = map content rs.
Proof.
  intros Hall. exists (join CRLF (map lineOf rs)).
  split.
  - unfold handleExport. by rewrite mapM_exportLine.
  - unfold handleImport, importLines. cbn [snd].
    rewrite importLines_join.
    + by apply imap_importLine.
    + induction Hall as [|row rs' Hrow _ IH]; [constructor|].
      simpl. constructor; [by apply lineOf_kept|done].
Qed.

End ExportImport.

Lemma export_import_round_trip_witness :
  (forall t, isWritable t ->
     parseDateTime (formatTokens t yyyy_MM_dd_HH_mm_ss) = Time t)
  /\ Forall isPortable datedRows
  /\ exists text,
       handleExport datedRows = Some text
       /\ map content (handleImport parseDateTime text initial).2
          = map content datedRows.
Proof.
  assert (Hrows : Forall isPortable datedRows).
  { repeat apply Forall_cons_2; [| |apply Forall_nil_2];
      (repeat split; try reflexivity; try (vm_compute; discriminate);
       right; left; reflexivity). }
  exact (conj parseDateTime_format (conj Hrows
           (export_import_round_trip parseDateTime parseDateTime_format
              datedRows initial Hrows))).
Defined.

Example export_import_sample :
  handleExport datedRows
  = Some ("gateway" +:+ String TAB ("10.0.0.1" +:+ String TAB
            ("2024-01-01 10:00:00" +:+ String TAB ("2024-01-03 14:00:00"
     +:+ String CR (String LF (String TAB ("10.0.0.2" +:+ String TAB
            ("2024-01-02 00:00:00" +:+ String TAB EmptyString)))))))).
Proof. reflexivity. Qed.

(** C2 as stated fails: both timestamps of [halfSecondRow] are set, its
    start lies half a second after 10:00:00, and the start that comes
    back from the exported text is 10:00:00 sharp. *)
Lemma half_second_is_lost :
  start halfSecondRow = Some (localDate 2024 1 1 10 0 0 500)
  /\ end_ halfSecondRow = Some jan3_1400
  /\ exists text,
       handleExport [halfSecondRow] = Some text
       /\ map start (handleImport parseDateTime text initial).2
          = [Some (localDate 2024 1 1 10 0 0 0)]
       /\ map content (handleImport parseDateTime text initial).2
          <> map content [halfSecondRow].
Proof.
  split; [reflexivity|]. split; [reflexivity|].
  eexists. split; [reflexivity|]. split; [reflexivity|].
  vm_compute. discriminate.
Qed.

(** No reader can make up for it: the text written for the row is the
    text written for the same row on the whole second. *)
Example half_second_not_written :
  handleExport [halfSecondRow]
  = handleExport [setField Fstart (Some jan1_1000) halfSecondRow].
Proof. reflexivity. Qed.

(** A TAB in a name moves the cells of the line. *)
Example tab_in_name_moves_cells :
  exists text,
    handleExport [tabbedRow] = Some text
    /\ map content (handleImport parseDateTime text initial).2
       = [("a", "b", Some InvalidDate, Some jan1_1000)].
Proof. eexists. split; reflexivity. Qed.

(** The export of an Invalid Date throws. *)
Example invalid_date_is_not_exported :
  handleExport [setField Fstart (Some InvalidDate) halfSecondRow] = None.
Proof. reflexivity. Qed.

(** The line of a row without any content is blank and is skipped by
    the import. *)
Example blank_row_is_dropped :
  exists text,
    handleExport (handleAddRow initial).2 = Some text
    /\ (handleImport parseDateTime text initial).2 = [].
Proof. eexists. split; reflexivity. Qed.

(** * Further properties of the handlers and of the layout *)

(** ** Deleting, selecting and reordering *)

(** X1.  Deleting at an index of the sequence removes exactly the row at
    that index: the sequence gets shorter by one, the rows before the
    index stay in place, the rows after it move down by one, and no
    [errors] object is touched. *)
Theorem handleDeleteRow_removes_one (i : nat) (st : App) :
  (i < length (rows st))%nat ->
  (handleDeleteRow (Z.of_nat i) st).1 = heap st
  /\ S (length (handleDeleteRow (Z.of_nat i) st).2) = length (rows st)
  /\ (forall j, (j < i)%nat ->
        (handleDeleteRow (Z.of_nat i) st).2 !! j = rows st !! j)
  /\ (forall j, (i <= j)%nat ->
        (handleDeleteRow (Z.of_nat i) st).2 !! j = rows st !! S j).
Proof.
  intros Hi. unfold handleDeleteRow, filterIndexed. cbn [fst snd].
  rewrite (filterFrom_skip_one _ _ 0%nat i) by (done || lia).
  split; [done|]. split.
  - rewrite length_delete by by apply lookup_lt_is_Some_2. lia.
  - split; intros j Hj.
    + by apply list_lookup_delete_lt.
    + by apply list_lookup_delete_ge.
Qed.

Lemma handleDeleteRow_removes_one_witness :
  (1 < length (rows threeRows))%nat
  /\ map name (handleDeleteRow 1 threeRows).2 = ["alpha"; "gamma"]
  /\ (handleDeleteRow (Z.of_nat 1) threeRows).1 = heap threeRows
  /\ S (length (handleDeleteRow (Z.of_nat 1) threeRows).2)
     = length (rows threeRows)
  /\ (forall j, (j < 1)%nat ->
        (handleDeleteRow (Z.of_nat 1) threeRows).2 !! j = rows threeRows !! j)
  /\ (forall j, (1 <= j)%nat ->
        (handleDeleteRow (Z.of_nat 1) threeRows).2 !! j
        = rows threeRows !! S j).
Proof.
  assert (H : (1 < length (rows threeRows))%nat) by (vm_compute; lia).
  exact (conj H (conj eq_refl (handleDeleteRow_removes_one 1 threeRows H))).
Defined.

Lemma List_filter_sublist {A} (p : A -> bool) (l : list A) :
  List.filter p l `sublist_of` l.
Proof.
  induction l as [|x l IH]; simpl; [constructor|].
  destruct (p x); by constructor.
Qed.

Lemma List_filter_lengths {A} (p : A -> bool) (l : list A) :
  (length (List.filter p l)
   + length (List.filter (fun x => negb (p x)) l) = length l)%nat.
Proof.
  induction l as [|x l IH]; simpl; [done|].
  destruct (p x); simpl; lia.
Qed.

Lemma List_filter_elem {A} (p : A -> bool) (l : list A) (x : A) :
  x ∈ List.filter p l <-> x ∈ l /\ p x = true.
Proof. rewrite !list_elem_of_In. apply filter_In. Qed.

Lemma indeterminate_uniform (b : bool) (rs : list Row) :
  Forall (fun row => selected row = b) rs -> indeterminate rs = false.
Proof.
  intros Hall. unfold indeterminate. destruct b.
  - assert (existsb (fun row => negb (selected row)) rs = false) as ->;
      [|apply andb_false_r].
    induction Hall as [|row rs' Hrow _ IH]; simpl; [done|].
    by rewrite Hrow, IH.
  - assert (existsb selected rs = false) as ->; [|done].
    induction Hall as [|row rs' Hrow _ IH]; simpl; [done|].
    by rewrite Hrow, IH.
Qed.

(** X2.  Delete-selected keeps exactly the rows that are not selected,
    in their order: no selected row is left, every unselected row is
    kept, the rows kept and the rows selected add up to the rows before,
    no [errors] object is touched, and the header checkbox is not
    indeterminate afterwards. *)
Theorem handleDeleteSelected_keeps_unselected (st : App) :
  (handleDeleteSelected st).1 = heap st
  /\ Forall (fun row => selected row = false) (handleDeleteSelected st).2
  /\ (handleDeleteSelected st).2 `sublist_of` rows st
  /\ (forall row, row ∈ rows st -> selected row = false ->
        row ∈ (handleDeleteSelected st).2)
  /\ (length (handleDeleteSelected st).2
      + length (List.filter selected (rows st)) = length (rows st))%nat
  /\ indeterminate (handleDeleteSelected st).2 = false.
Proof.
  assert (Hnone : Forall (fun row => selected row = false)
                    (handleDeleteSelected st).2).
  { apply List.Forall_forall. intros row [_ H]%filter_In.
    by apply negb_true_iff. }
  split; [done|]. split; [done|].
  split; [|split; [|split]]; unfold handleDeleteSelected; cbn [fst snd].
  - apply List_filter_sublist.
  - intros row Hrow Hsel. apply List_filter_elem. by rewrite Hsel.
  - pose proof (List_filter_lengths selected (rows st)). lia.
  - by apply (indeterminate_uniform false).
Qed.

(** X3.  Select-all sets the flag of every row and nothing else: the
    rows keep their content, their [errors] objects and their order, the
    header checkbox is never indeterminate afterwards, and deleting the
    selected rows after selecting all of them empties the table. *)
Theorem handleSelectAll_sets_every_flag (checked : bool) (st : App) :
  Forall (fun row => selected row = checked) (handleSelectAll checked st).2
  /\ map content (handleSelectAll checked st).2 = map content (rows st)
  /\ map errors (handleSelectAll checked st).2 = map errors (rows st)
  /\ (handleSelectAll checked st).1 = heap st
  /\ indeterminate (handleSelectAll checked st).2 = false
  /\ (handleDeleteSelected
        (setRows (handleSelectAll true st) (setSelectAll true st))).2 = [].
Proof.
  unfold handleSelectAll, handleDeleteSelected. cbn [fst snd setRows rows].
  repeat split.
  - apply List.Forall_forall. intros row (r & <- & _)%in_map_iff. done.
  - rewrite map_map. by apply map_ext.
  - rewrite map_map. by apply map_ext.
  - apply (indeterminate_uniform checked).
    apply List.Forall_forall. intros row (r & <- & _)%in_map_iff. done.
  - induction (rows st) as [|r rs IH]; [done|]. simpl. done.
Qed.

(** X4.  A drop without destination changes nothing.  A drop of the row
    at [src] onto a position [dst] of the sequence keeps the rows (the
    result is a permutation of the sequence, of the same length), puts
    the dragged row at [dst] and leaves the other rows in their order;
    no [errors] object is touched. *)
Theorem handleDragEnd_moves_one (st : App) (src dst : nat) (row : Row) :
  rows st !! src = Some row -> (dst < length (rows st))%nat ->
  handleDragEnd {| source := src; destination := None |} st = None
  /\ exists u,
       handleDragEnd {| source := src; destination := Some dst |} st = Some u
       /\ u.1 = heap st
       /\ u.2 ≡ₚ rows st
       /\ length u.2 = length (rows st)
       /\ u.2 !! dst = Some row
       /\ delete dst u.2 = delete src (rows st).
Proof.
  intros Hrow Hdst. split; [done|].
  pose proof (lookup_lt_Some _ _ _ Hrow) as Hsrc.
  assert (Hlen : (dst <= length (delete src (rows st)))%nat)
    by (rewrite length_delete by eauto; lia).
  assert (Hperm : spliceIn dst row (delete src (rows st)) ≡ₚ rows st).
  { unfold spliceIn. rewrite <- Permutation_middle, take_drop.
    symmetry. by apply delete_Permutation. }
  eexists. split; [unfold handleDragEnd; simpl; by rewrite Hrow|].
  cbn [fst snd]. split; [done|]. split; [done|].
  split; [by rewrite Hperm|].
  split; [by apply spliceIn_lookup|by apply delete_spliceIn].
Qed.

Lemma handleDragEnd_moves_one_witness :
  (rows threeRows !! 2%nat
   = Some {| name := "gamma"; ip := EmptyString; start := None; end_ := None;
             errors := 2%nat; selected := false |})
  /\ (0 < length (rows threeRows))%nat
  /\ handleDragEnd {| source := 2; destination := None |} threeRows = None
  /\ exists u,
       handleDragEnd {| source := 2; destination := Some 0%nat |} threeRows
       = Some u
       /\ u.1 = heap threeRows
       /\ u.2 ≡ₚ rows threeRows
       /\ length u.2 = length (rows threeRows)
       /\ u.2 !! 0%nat
          = Some {| name := "gamma"; ip := EmptyString; start := None;
                    end_ := None; errors := 2%nat; selected := false |}
       /\ delete 0%nat u.2 = delete 2%nat (rows threeRows).
Proof.
  assert (H0 : (0 < length (rows threeRows))%nat) by (vm_compute; lia).
  exact (conj eq_refl (conj H0
           (handleDragEnd_moves_one threeRows 2 0 _ eq_refl H0))).
Defined.

(** X5.  A row that was just added is removed again by deleting the last
    index: the rows are those before the two steps. *)
Theorem add_then_delete_last (st : App) :
  (handleDeleteRow (Z.of_nat (length (rows st)))
     (setRows (handleAddRow st) st)).2
  = rows st.
Proof.
  unfold handleDeleteRow, filterIndexed, handleAddRow.
  cbn [fst snd setRows rows].
  rewrite (filterFrom_skip_one _ _ 0%nat (length (rows st)));
    [|done|rewrite length_app; simpl; lia].
  rewrite delete_middle. apply app_nil_r.
Qed.

(** ** Editing and adding rows *)

(** X6.  An edit changes one field of one row: the sequence keeps its
    length, the other rows are untouched, the edited row holds the new
    value in the edited field and its old values in the other fields,
    and of the [errors] objects only the address message of the edited
    row's object may change. *)
Theorem handleChange_frame (index : nat) (f : field) (value : fieldType f)
    (st : App) (u : Update) :
  handleChange index f value st = Some u ->
  length u.2 = length (rows st)
  /\ (forall j, j <> index -> u.2 !! j = rows st !! j)
  /\ (exists row row',
        rows st !! index = Some row /\ u.2 !! index = Some row'
        /\ getField f row' = value
        /\ (forall g, g <> f -> getField g row' = getField g row)
        /\ errors row' = errors row
        /\ (forall k, k <> errors row -> u.1 !! k = heap st !! k)
        /\ err_date <$> u.1 !! errors row = err_date <$> heap st !! errors row)
  /\ length u.1 = length (heap st).
Proof.
  unfold handleChange. intros H.
  destruct (rows st !! index) as [row|] eqn:Hrow; [|done]. simpl in H.
  destruct (heap st !! errors row) as [e|] eqn:He; [|done]. simpl in H.
  injection H as <-. cbn [fst snd].
  split; [by rewrite length_insert|].
  split; [intros j Hj; by rewrite list_lookup_insert_ne|].
  split; [|by rewrite length_insert].
  exists row, (setField f value row).
  split; [done|].
  split; [apply list_lookup_insert_eq; by eapply lookup_lt_Some|].
  split; [by destruct f|].
  split; [intros g Hg; destruct f, g; done|].
  split; [by destruct f|].
  split; [intros k Hk; by rewrite list_lookup_insert_ne|].
  rewrite list_lookup_insert_eq by by eapply lookup_lt_Some.
  by rewrite He.
Qed.

Lemma handleChange_frame_witness :
  exists u,
    handleChange 1 Fname "delta" threeRows = Some u
    /\ map name u.2 = ["alpha"; "delta"; "gamma"]
    /\ length u.2 = length (rows threeRows)
    /\ (forall j, j <> 1%nat -> u.2 !! j = rows threeRows !! j)
    /\ (exists row row',
          rows threeRows !! 1%nat = Some row /\ u.2 !! 1%nat = Some row'
          /\ getField Fname row' = "delta"
          /\ (forall g, g <> Fname -> getField g row' = getField g row)
          /\ errors row' = errors row
          /\ (forall k, k <> errors row -> u.1 !! k = heap threeRows !! k)
          /\ err_date <$> u.1 !! errors row
             = err_date <$> heap threeRows !! errors row)
    /\ length u.1 = length (heap threeRows).
Proof.
  eexists. split; [reflexivity|]. split; [reflexivity|].
  exact (handleChange_frame 1 Fname "delta" threeRows _ eq_refl).
Defined.

(** X7.  An edit writes the address message of the edited row's [errors]
    object, and with it the message of every row that shares the object;
    the messages of the rows with another object stay as they are.  The
    message written is "Invalid IP address" for an invalid address and
    empty for every other edit. *)
Theorem handleChange_writes_shared_message (index : nat) (f : field)
    (value : fieldType f) (st : App) (u : Update) (row : Row) :
  handleChange index f value st = Some u ->
  rows st !! index = Some row ->
  forall j row', rows st !! j = Some row' ->
    addressError (setRows u st) j
    = if decide (errors row' = errors row)
      then Some (if invalidAddressEdit f value then "Invalid IP address"
                 else EmptyString)
      else addressError st j.
Proof.
  unfold handleChange. intros H Hrow. rewrite Hrow in H. simpl in H.
  destruct (heap st !! errors row) as [e|] eqn:He; [|done]. simpl in H.
  injection H as <-. intros j row' Hrow'.
  pose proof (lookup_lt_Some _ _ _ He) as Hlt.
  unfold addressError. cbn [setRows rows heap fst snd].
  assert (Hj : exists r, <[index := setField f value row]> (rows st) !! j
                         = Some r /\ errors r = errors row').
  { destruct (decide (j = index)) as [->|Hne].
    - exists (setField f value row).
      rewrite list_lookup_insert_eq by by eapply lookup_lt_Some.
      split; [done|]. assert (row' = row) as -> by congruence.
      by destruct f.
    - exists row'. by rewrite list_lookup_insert_ne. }
  destruct Hj as (r & -> & Hr). rewrite Hrow'. simpl. rewrite Hr.
  destruct (decide (errors row' = errors row)) as [->|Hne].
  - by rewrite list_lookup_insert_eq.
  - by rewrite list_lookup_insert_ne.
Qed.

Lemma handleChange_writes_shared_message_witness :
  exists u row row0 row2,
    handleChange 1 Fip "x" copiedState = Some u
    /\ rows copiedState !! 1%nat = Some row
    /\ rows copiedState !! 0%nat = Some row0
    /\ rows copiedState !! 2%nat = Some row2
    /\ addressError (setRows u copiedState) 0
       = (if decide (errors row0 = errors row)
          then Some (if invalidAddressEdit Fip "x" then "Invalid IP address"
                     else EmptyString)
          else addressError copiedState 0)
    /\ addressError (setRows u copiedState) 0 = Some "Invalid IP address"
    /\ addressError (setRows u copiedState) 2
       = (if decide (errors row2 = errors row)
          then Some (if invalidAddressEdit Fip "x" then "Invalid IP address"
                     else EmptyString)
          else addressError copiedState 2)
    /\ addressError (setRows u copiedState) 2 = Some EmptyString.
Proof.
  eexists _, _, _, _.
  split; [reflexivity|]. split; [reflexivity|].
  split; [reflexivity|]. split; [reflexivity|].
  split; [exact (handleChange_writes_shared_message 1 Fip "x" copiedState
                   _ _ eq_refl eq_refl 0%nat _ eq_refl)|].
  split; [reflexivity|].
  split; [exact (handleChange_writes_shared_message 1 Fip "x" copiedState
                   _ _ eq_refl eq_refl 2%nat _ eq_refl)|].
  reflexivity.
Defined.

Lemma List_filter_all {A} (p : A -> bool) (l : list A) :
  Forall (fun x => p x = true) l -> List.filter p l = l.
Proof.
  induction 1 as [|x l Hx _ IH]; simpl; [done|]. by rewrite Hx, IH.
Qed.

(** X8.  Copy-selected appends one copy per selected row, in the order
    of the originals, and leaves the rows before it as they are.  A copy
    has the content of its original, is not selected, and refers to the
    same [errors] object as its original.  Delete-selected right after
    it removes the selected originals and keeps all the copies. *)
Theorem handleCopySelected_appends_copies (st : App) :
  exists copies,
    (handleCopySelected st).2 = rows st ++ copies
    /\ (handleCopySelected st).1 = heap st
    /\ map content copies = map content (List.filter selected (rows st))
    /\ map errors copies = map errors (List.filter selected (rows st))
    /\ Forall (fun row => selected row = false) copies
    /\ (handleDeleteSelected (setRows (handleCopySelected st) st)).2
       = List.filter (fun row => negb (selected row)) (rows st) ++ copies.
Proof.
  exists (map unselect (List.filter selected (rows st))).
  assert (Hnone : Forall (fun row => selected row = false)
                    (map unselect (List.filter selected (rows st)))).
  { apply List.Forall_forall. intros row (r & <- & _)%in_map_iff. done. }
  split; [done|]. split; [done|].
  split; [rewrite map_map; by apply map_ext|].
  split; [rewrite map_map; by apply map_ext|].
  split; [done|].
  unfold handleDeleteSelected, handleCopySelected. cbn [fst snd setRows rows].
  rewrite List.filter_app. f_equal. apply List_filter_all.
  eapply List.Forall_impl; [|exact Hnone].
  intros row Hrow. simpl in Hrow. by rewrite Hrow.
Qed.

(** X9.  The row added by Add Row is blank and comes last, behind the
    rows there were.  In a state whose rows refer to [errors] objects of
    the store, its [errors] object is a new one that no other row refers
    to, its address message is empty and the messages of the other rows
    are as before. *)
Theorem handleAddRow_appends_fresh_row (st : App) :
  refsValid (heap st) (rows st) ->
  exists blank,
    (handleAddRow st).2 = rows st ++ [blank]
    /\ content blank = (EmptyString, EmptyString, None, None)
    /\ selected blank = false
    /\ Forall (fun row => errors row <> errors blank) (rows st)
    /\ addressError (setRows (handleAddRow st) st) (length (rows st))
       = Some EmptyString
    /\ (forall i, (i < length (rows st))%nat ->
          addressError (setRows (handleAddRow st) st) i = addressError st i).
Proof.
  intros Hvalid. eexists. split; [reflexivity|].
  split; [done|]. split; [done|]. cbn [errors].
  unfold refsValid in Hvalid.
  split; [|split].
  - eapply List.Forall_impl; [|exact Hvalid]. intros row Hrow. simpl in *. lia.
  - unfold addressError, handleAddRow. cbn [setRows rows heap fst snd].
    rewrite lookup_app_r by done. rewrite Nat.sub_diag. simpl.
    rewrite lookup_app_r by done. by rewrite Nat.sub_diag.
  - intros i Hi. unfold addressError, handleAddRow.
    cbn [setRows rows heap fst snd].
    rewrite lookup_app_l by done.
    destruct (rows st !! i) as [row|] eqn:Hrow; [|done]. simpl.
    rewrite lookup_app_l; [done|].
    rewrite Forall_lookup in Hvalid. by eapply Hvalid.
Qed.

Lemma handleAddRow_appends_fresh_row_witness :
  refsValid (heap copiedState) (rows copiedState)
  /\ exists blank,
    (handleAddRow copiedState).2 = rows copiedState ++ [blank]
    /\ content blank = (EmptyString, EmptyString, None, None)
    /\ selected blank = false
    /\ Forall (fun row => errors row <> errors blank) (rows copiedState)
    /\ addressError (setRows (handleAddRow copiedState) copiedState)
         (length (rows copiedState))
       = Some EmptyString
    /\ (forall i, (i < length (rows copiedState))%nat ->
          addressError (setRows (handleAddRow copiedState) copiedState) i
          = addressError copiedState i).
Proof.
  assert (H : refsValid (heap copiedState) (rows copiedState)).
  { repeat constructor; simpl; lia. }
  exact (conj H (handleAddRow_appends_fresh_row copiedState H)).
Defined.

Section Edits.

Variable parseISO : string -> Date.

(** X10.  In a state reached by the row operations an edit throws
    exactly when its index names no row. *)
Theorem handleChange_fails_iff_out_of_range (st : App) (index : nat)
    (f : field) (value : fieldType f) :
  reachable parseISO st ->
  handleChange index f value st = None <-> (length (rows st) <= index)%nat.
Proof.
  intros Hreach. split.
  - intros Hnone.
    destruct (Nat.le_gt_cases (length (rows st)) index) as [|Hlt]; [done|].
    destruct (handleChange_in_range parseISO st index f value Hreach Hlt)
      as [u Hu].
    congruence.
  - intros Hge. unfold handleChange.
    by rewrite (lookup_ge_None_2 (rows st) index).
Qed.

End Edits.

Lemma handleChange_fails_iff_out_of_range_witness :
  reachable parseDateTime threeRows
  /\ (handleChange 3 Fname "x" threeRows = None
      <-> (length (rows threeRows) <= 3)%nat)
  /\ handleChange 3 Fname "x" threeRows = None.
Proof.
  assert (H : reachable parseDateTime threeRows)
    by (apply reachable_run; constructor).
  exact (conj H (conj (handleChange_fails_iff_out_of_range parseDateTime
                         threeRows 3 Fname "x" H) eq_refl)).
Defined.

(** ** Importing *)

Lemma trimStart_inkless (s : string) :
  hasInk s = false -> trimStart s = EmptyString.
Proof.
  induction s as [|a s IH]; simpl; [done|].
  intros [Ha Hs]%orb_false_iff. apply negb_false_iff in Ha.
  rewrite Ha. by apply IH.
Qed.

(** [trim] leaves something exactly of the texts with a character that
    is no white space. *)
Lemma not_blank_hasInk (s : string) :
  negb (String.eqb (trim s) EmptyString) = hasInk s.
Proof.
  destruct (hasInk s) eqn:Hink.
  - by apply hasInk_not_blank.
  - unfold trim. by rewrite trimStart_inkless.
Qed.

Lemma splitLines_inkless (s : string) :
  hasInk s = false -> Forall (fun l => hasInk l = false) (splitLines s).
Proof.
  induction s as [|a s IH]; [by repeat constructor|].
  intros [Ha Hs]%orb_false_iff. specialize (IH Hs).
  assert (Hcons : Forall (fun l => hasInk l = false)
                    match splitLines s with
                    | x :: xs => String a x :: xs
                    | [] => [String a EmptyString]
                    end).
  { destruct (splitLines s) as [|x xs]; [repeat constructor; simpl;
                                          by rewrite Ha|].
    apply Forall_cons_1 in IH as [Hx Hxs].
    constructor; [simpl; by rewrite Ha, Hx|done]. }
  cbn [splitLines].
  destruct (Ascii.eqb a LF); [by constructor|].
  destruct (Ascii.eqb a CR); [|done].
  destruct s as [|b s']; [done|].
  destruct (Ascii.eqb b LF) eqn:Hb; [|done].
  cbn [splitLines] in IH. rewrite Hb in IH.
  apply Forall_cons_1 in IH as [_ IH]. by constructor.
Qed.

Section Importing.

Variable parseISO : string -> Date.

(** X11.  The import makes one row per line that [trim] does not empty.
    Every imported row is unselected and shows no address message,
    whatever its address. *)
Theorem handleImport_rows_unflagged (text : string) (st : App) :
  length (handleImport parseISO text st).2
  = length (List.filter hasInk (splitLines text))
  /\ forall i, (i < length (handleImport parseISO text st).2)%nat ->
       addressError (setRows (handleImport parseISO text st) st) i
       = Some EmptyString
       /\ selected <$> (handleImport parseISO text st).2 !! i = Some false.
Proof.
  unfold handleImport, importLines. cbn [fst snd].
  rewrite (filter_ext _ hasInk) by apply not_blank_hasInk.
  split; [by rewrite length_imap|]. rewrite length_imap.
  intros i Hi. unfold addressError. cbn [setRows rows heap fst snd].
  rewrite list_lookup_imap.
  destruct (lookup_lt_is_Some_2 _ _ Hi) as [line ->]. simpl.
  split; [|done].
  rewrite lookup_app_r by lia.
  replace (length (heap st) + i - length (heap st))%nat with i by lia.
  by rewrite lookup_replicate_2.
Qed.

(** X12.  A text of white space and line breaks only, the empty text
    among them, is imported as no row at all. *)
Theorem handleImport_blank_text (text : string) (st : App) :
  hasInk text = false -> (handleImport parseISO text st).2 = [].
Proof.
  intros Hblank. unfold handleImport, importLines. cbn [snd].
  rewrite (filter_ext _ hasInk) by apply not_blank_hasInk.
  pose proof (splitLines_inkless text Hblank) as Hall.
  induction Hall as [|l ls Hl _ IH]; [done|]. simpl. by rewrite Hl.
Qed.

End Importing.

Lemma handleImport_rows_unflagged_witness :
  (0 < length (handleImport parseDateTime "x" initial).2)%nat
  /\ addressError (setRows (handleImport parseDateTime "x" initial) initial) 0
     = Some EmptyString
  /\ selected <$> (handleImport parseDateTime "x" initial).2 !! 0%nat
     = Some false.
Proof.
  assert (H : (0 < length (handleImport parseDateTime "x" initial).2)%nat)
    by (vm_compute; lia).
  exact (conj H (proj2 (handleImport_rows_unflagged parseDateTime "x" initial)
                   0%nat H)).
Defined.

Lemma handleImport_blank_text_witness :
  hasInk (" " +:+ CRLF +:+ String TAB CRLF) = false
  /\ (handleImport parseDateTime (" " +:+ CRLF +:+ String TAB CRLF)
        initial).2 = [].
Proof.
  exact (conj eq_refl
           (handleImport_blank_text parseDateTime
              (" " +:+ CRLF +:+ String TAB CRLF) initial eq_refl)).
Defined.

Lemma splitChar_join (c : ascii) (cells : list string) :
  cells <> [] -> Forall (fun s => freeOf c s = true) cells ->
  splitChar c (join (String c EmptyString) cells) = cells.
Proof.
  induction cells as [|x cells IH]; [done|]. intros _ Hall.
  apply Forall_cons_1 in Hall as [Hx Hall].
  destruct cells as [|y cells].
  - simpl. by apply splitChar_free.
  - change (join (String c EmptyString) (x :: y :: cells))
      with (x +:+ String c EmptyString
              +:+ join (String c EmptyString) (y :: cells)).
    change (String c EmptyString +:+ ?s) with (String c s).
    rewrite splitChar_cell by done. f_equal. by apply IH.
Qed.

Lemma splitLines_lf (a s : string) :
  freeOf LF a = true -> freeOf CR a = true ->
  splitLines (a +:+ String LF s) = a :: splitLines s.
Proof.
  induction a as [|x a IH].
  - intros _ _. reflexivity.
  - intros [Hx Ha]%andb_true_iff [Hx' Ha']%andb_true_iff.
    apply negb_true_iff in Hx, Hx'.
    change (String x a +:+ String LF s) with (String x (a +:+ String LF s)).
    cbn [splitLines]. rewrite Hx, Hx'. by rewrite IH.
Qed.

Lemma splitLines_join_lf (ls : list string) :
  Forall (fun l => freeOf LF l = true /\ freeOf CR l = true) ls ->
  splitLines (join (String LF EmptyString) ls) = splitLines (join CRLF ls).
Proof.
  induction 1 as [|l ls [Hl Hl'] Hall IH]; [done|].
  destruct ls as [|l' ls]; [done|].
  change (join (String LF EmptyString) (l :: l' :: ls))
    with (l +:+ String LF EmptyString
            +:+ join (String LF EmptyString) (l' :: ls)).
  change (join CRLF (l :: l' :: ls))
    with (l +:+ CRLF +:+ join CRLF (l' :: ls)).
  change (String LF EmptyString +:+ ?s) with (String LF s).
  change (CRLF +:+ ?s) with (String CR (String LF s)).
  rewrite splitLines_lf, splitLines_line by done. by rewrite IH.
Qed.

Lemma splitLines_not_nil (s : string) : splitLines s <> [].
Proof.
  destruct s as [|a s]; [done|]. cbn [splitLines].
  destruct (Ascii.eqb a LF); [done|].
  assert (match splitLines s with
          | x :: xs => String a x :: xs
          | [] => [String a EmptyString]
          end <> []) by by destruct (splitLines s).
  destruct (Ascii.eqb a CR); [|done].
  destruct s as [|b s']; [done|]. by destruct (Ascii.eqb b LF).
Qed.

Lemma splitLines_trailing_crlf (s : string) :
  splitLines (s +:+ CRLF) = splitLines s ++ [EmptyString].
Proof.
  induction s as [|a s IH]; [done|].
  change (String a s +:+ ?t) with (String a (s +:+ t)).
  cbn [splitLines].
  destruct (Ascii.eqb a LF); [by rewrite IH|].
  assert (Hcons : match splitLines (s +:+ CRLF) with
                  | x :: xs => String a x :: xs
                  | [] => [String a EmptyString]
                  end
                  = match splitLines s with
                    | x :: xs => String a x :: xs
                    | [] => [String a EmptyString]
                    end ++ [EmptyString]).
  { rewrite IH. pose proof (splitLines_not_nil s).
    by destruct (splitLines s). }
  destruct (Ascii.eqb a CR); [|done].
  destruct s as [|b s']; [reflexivity|].
  change (String b s' +:+ ?t) with (String b (s' +:+ t)) in *.
  cbv iota. destruct (Ascii.eqb b LF) eqn:Hb; [|exact Hcons].
  cbn [splitLines] in IH. rewrite Hb in IH. exact IH.
Qed.

Lemma splitLines_trailing_lf (s : string) :
  freeOf CR s = true ->
  splitLines (s +:+ String LF EmptyString) = splitLines s ++ [EmptyString].
Proof.
  induction s as [|a s IH]; [done|].
  intros [Ha Hs]%andb_true_iff. apply negb_true_iff in Ha.
  change (String a s +:+ ?t) with (String a (s +:+ t)).
  cbn [splitLines]. rewrite Ha, IH by done.
  destruct (Ascii.eqb a LF); [done|].
  pose proof (splitLines_not_nil s). by destruct (splitLines s).
Qed.

Section Lines.

Variable parseISO : string -> Date.

(** X13.  A line is cut at its TABs and the first four cells become
    name, address, start and end: a missing or empty name or address is
    the empty text, a missing or empty timestamp is unset, any other
    timestamp is what [parseISO] makes of it, and cells beyond the fourth
    are ignored. *)
Theorem importLine_cells (ref : nat) (cells : list string) :
  cells <> [] -> Forall (fun s => freeOf TAB s = true) cells ->
  content (importLine parseISO ref (join (String TAB EmptyString) cells))
  = (default EmptyString (cells !! 0%nat),
     default EmptyString (cells !! 1%nat),
     importDate parseISO (cells !! 2%nat),
     importDate parseISO (cells !! 3%nat)).
Proof.
  intros Hne Hall. unfold importLine, content. cbn [name ip start end_].
  by rewrite splitChar_join.
Qed.

(** X14.  Lines separated by LF are read like lines separated by CR LF,
    as long as no line holds a CR of its own.  A CR LF at the end of the
    text does not add a row, and neither does an LF at the end of a text
    without CR. *)
Theorem handleImport_line_breaks (st : App) :
  (forall ls,
     Forall (fun l => freeOf LF l = true /\ freeOf CR l = true) ls ->
     handleImport parseISO (join (String LF EmptyString) ls) st
     = handleImport parseISO (join CRLF ls) st)
  /\ (forall text,
        handleImport parseISO (text +:+ CRLF) st
        = handleImport parseISO text st)
  /\ (forall text,
        freeOf CR text = true ->
        handleImport parseISO (text +:+ String LF EmptyString) st
        = handleImport parseISO text st).
Proof.
  split; [|split].
  - intros ls Hall. unfold handleImport, importLines.
    by rewrite splitLines_join_lf.
  - intros text. unfold handleImport, importLines.
    rewrite splitLines_trailing_crlf.
    rewrite List.filter_app. simpl. by rewrite app_nil_r.
  - intros text Hcr. unfold handleImport, importLines.
    rewrite splitLines_trailing_lf by done.
    rewrite List.filter_app. simpl. by rewrite app_nil_r.
Qed.

End Lines.

Lemma importLine_cells_witness :
  ["web"; "10.0.0.7"] <> []
  /\ Forall (fun s => freeOf TAB s = true) ["web"; "10.0.0.7"]
  /\ content (importLine parseDateTime 0
                (join (String TAB EmptyString) ["web"; "10.0.0.7"]))
     = ("web", "10.0.0.7", None, None).
Proof.
  assert (H1 : ["web"; "10.0.0.7"] <> []) by discriminate.
  assert (H2 : Forall (fun s => freeOf TAB s = true) ["web"; "10.0.0.7"])
    by (repeat constructor).
  exact (conj H1 (conj H2
           (importLine_cells parseDateTime 0 ["web"; "10.0.0.7"] H1 H2))).
Defined.

Lemma handleImport_line_breaks_witness :
  Forall (fun l => freeOf LF l = true /\ freeOf CR l = true) ["a"; "b"]
  /\ handleImport parseDateTime (join (String LF EmptyString) ["a"; "b"])
       initial
     = handleImport parseDateTime (join CRLF ["a"; "b"]) initial
  /\ map name (handleImport parseDateTime
                 (join (String LF EmptyString) ["a"; "b"]) initial).2
     = ["a"; "b"]
  /\ freeOf CR "a" = true
  /\ handleImport parseDateTime ("a" +:+ String LF EmptyString) initial
     = handleImport parseDateTime "a" initial.
Proof.
  assert (H : Forall (fun l => freeOf LF l = true /\ freeOf CR l = true)
                ["a"; "b"]) by (repeat constructor).
  pose proof (handleImport_line_breaks parseDateTime initial)
    as (Hlf & _ & Hend).
  exact (conj H (conj (Hlf ["a"; "b"] H)
           (conj eq_refl (conj eq_refl (Hend "a" eq_refl))))).
Defined.

(** An LF after a text that ends in CR completes a CR LF, and the CR is
    no longer part of the last line. *)
Example trailing_lf_after_cr :
  map name (handleImport parseDateTime ("a" +:+ String CR EmptyString)
              initial).2 = ["a" +:+ String CR EmptyString]
  /\ map name (handleImport parseDateTime
                 ("a" +:+ String CR (String LF EmptyString)) initial).2
     = ["a"].
Proof. split; reflexivity. Qed.

(** ** Exporting *)

Lemma exportLine_None (row : Row) :
  exportLine row = None
  <-> start row = Some InvalidDate \/ end_ row = Some InvalidDate.
Proof.
  unfold exportLine.
  destruct (start row) as [[s|]|], (end_ row) as [[e|]|]; simpl;
    split; intros H; try done; try (by left); try (by right);
    destruct H as [H|H]; discriminate.
Qed.

(** X15.  The export throws exactly when some row has an Invalid Date as
    start or end; otherwise it produces the text. *)
Theorem handleExport_fails_iff_invalid_date (rs : list Row) :
  handleExport rs = None
  <-> Exists (fun row => start row = Some InvalidDate
                         \/ end_ row = Some InvalidDate) rs.
Proof.
  unfold handleExport. rewrite fmap_None.
  induction rs as [|row rs IH]; simpl.
  - split; [done|]. by intros H%Exists_nil.
  - rewrite Exists_cons, <- IH, <- exportLine_None.
    destruct (exportLine row); simpl.
    + destruct (mapM exportLine rs); simpl; split; try done.
      * intros [|]; done.
      * by right.
    + split; [by left|done].
Qed.

Lemma handleExport_fails_iff_invalid_date_witness :
  Exists (fun row => start row = Some InvalidDate
                     \/ end_ row = Some InvalidDate)
    [setField Fend (Some InvalidDate) halfSecondRow]
  /\ handleExport [setField Fend (Some InvalidDate) halfSecondRow] = None.
Proof.
  assert (H : Exists (fun row => start row = Some InvalidDate
                                 \/ end_ row = Some InvalidDate)
                [setField Fend (Some InvalidDate) halfSecondRow])
    by (apply Exists_cons_hd; right; reflexivity).
  exact (conj H (proj2 (handleExport_fails_iff_invalid_date _) H)).
Defined.

(** X16.  The exported text depends on the name, address, start and end
    of the rows only: the selection and the validation state are not
    written. *)
Theorem handleExport_content_only (rs rs' : list Row) :
  map content rs = map content rs' -> handleExport rs = handleExport rs'.
Proof.
  unfold handleExport. intros Hsame. f_equal.
  revert rs' Hsame. induction rs as [|row rs IH]; intros [|row' rs'] Hsame;
    try done.
  simpl in Hsame.
  assert (content row = content row' /\ map content rs = map content rs')
    as [Hrow Hrest] by (split; congruence).
  assert (exportLine row = exportLine row') as Hline.
  { unfold content in Hrow.
    assert (name row = name row' /\ ip row = ip row'
            /\ start row = start row' /\ end_ row = end_ row')
      as (Hn & Hi & Hs & He) by (repeat split; congruence).
    unfold exportLine. by rewrite Hn, Hi, Hs, He. }
  simpl. by rewrite Hline, (IH rs').
Qed.

Lemma handleExport_content_only_witness :
  map content datedRows = map content (map unselect datedRows)
  /\ handleExport datedRows = handleExport (map unselect datedRows).
Proof.
  exact (conj eq_refl
           (handleExport_content_only datedRows (map unselect datedRows)
              eq_refl)).
Defined.

(** ** The boxes of a record *)

(** X17.  A record whose start or end is an Invalid Date is neither
    skipped nor marked as an invalid range, and laying it out does not
    throw: it is drawn as one box.  The box has no label and no colour
    on the side of an invalid start, no label on the side of an invalid
    end, and with both bounds set its width is not a number. *)
Theorem renderBarSegments_invalid_date (earliest latest : option Date)
    (s e : Date) :
  s = InvalidDate \/ e = InvalidDate ->
  exists box,
    renderBarSegments earliest latest (Some s) (Some e) = Some (Bars [box])
    /\ (s = InvalidDate ->
        firstLabel box = None /\ backgroundColor box = None)
    /\ (e = InvalidDate -> lastLabel box = None)
    /\ (earliest <> None -> latest <> None -> box_width box = Percent NaN).
Proof.
  intros Hinvalid.
  assert (Hwidth : forall x y, x = InvalidDate \/ y = InvalidDate ->
            earliest <> None -> latest <> None ->
            calculateWidth earliest latest (Some x) (Some y) = NaN).
  { intros x y Hxy He Hl. unfold calculateWidth.
    destruct earliest as [e0|], latest as [l0|]; try done.
    destruct Hxy as [-> | ->]; simpl; [|done].
    by destruct (getTime y). }
  assert (Hge : date_geb s e = false)
    by (destruct Hinvalid as [-> | ->]; [done|by destruct s]).
  assert (Hsegs : daySegments s e
                  = Some [ {| seg_start := s; seg_end := e |} ])
    by (destruct Hinvalid as [-> | ->]; [done|by destruct s]).
  destruct (renderSegment_Some earliest latest s e
              {| seg_start := s; seg_end := e |})
    as (box & Hbox & Hcolour & _ & Hw & Hfirst & Hlast).
  cbn [seg_start seg_end] in *.
  exists box. split.
  - unfold renderBarSegments. rewrite Hge, Hsegs. simpl. by rewrite Hbox.
  - split; [|split].
    + intros ->. simpl in Hfirst. split; [congruence|].
      by rewrite Hcolour.
    + intros ->. simpl in Hlast. congruence.
    + intros He Hl. rewrite Hw. f_equal. by apply Hwidth.
Qed.

Lemma renderBarSegments_invalid_date_witness :
  (jan1_1000 = InvalidDate \/ InvalidDate = InvalidDate)
  /\ exists box,
    renderBarSegments (Some jan1_1000) (Some jan3_1400)
      (Some jan1_1000) (Some InvalidDate) = Some (Bars [box])
    /\ (jan1_1000 = InvalidDate ->
        firstLabel box = None /\ backgroundColor box = None)
    /\ (InvalidDate = InvalidDate -> lastLabel box = None)
    /\ (Some jan1_1000 <> None -> Some jan3_1400 <> None ->
        box_width box = Percent NaN).
Proof.
  assert (H : jan1_1000 = InvalidDate \/ InvalidDate = InvalidDate)
    by (right; reflexivity).
  exact (conj H (renderBarSegments_invalid_date (Some jan1_1000)
                   (Some jan3_1400) jan1_1000 InvalidDate H)).
Defined.

Lemma dayOf_after_lastMs (t : Z) : dayOf (lastMsOfDay t + 1) = dayOf t + 1.
Proof. unfold lastMsOfDay, dayOf. rewrite msPerDay_value. div_lia. Qed.

Lemma dayChain_length (e cs : Z) (segs : list Segment) :
  cs <= e -> dayChain e cs segs ->
  Z.of_nat (length segs) = dayOf e - dayOf cs + 1.
Proof.
  intros Hle Hchain. revert Hle.
  induction Hchain as [cs Hlast|cs segs Hlt _ IH]; intros Hle.
  - simpl. revert Hlast Hle. unfold lastMsOfDay, dayOf.
    rewrite msPerDay_value. div_lia.
  - cbn [length]. rewrite Nat2Z.inj_succ, IH by lia.
    rewrite dayOf_after_lastMs. lia.
Qed.

(** Where the segment at position [i] of a chain starts and ends. *)
Lemma dayChain_ends (e cs : Z) (segs : list Segment) (i : nat)
    (seg : Segment) :
  dayChain e cs segs -> segs !! i = Some seg ->
  exists x y,
    seg_start seg = Time x /\ seg_end seg = Time y
    /\ (i = 0%nat -> x = cs) /\ (i <> 0%nat -> cs < x)
    /\ (S i = length segs -> y = e) /\ (S i <> length segs -> y < e).
Proof.
  intros Hchain. revert i.
  induction Hchain as [cs Hlast|cs segs Hlt Hchain IH]; intros i Hseg.
  - destruct i as [|i]; [|done]. injection Hseg as <-.
    exists cs, e. by repeat split.
  - destruct i as [|i].
    + injection Hseg as <-. exists cs, (lastMsOfDay cs).
      repeat split; try done.
      intros Hlen. exfalso. destruct Hchain; simpl in Hlen; lia.
    + destruct (IH i Hseg) as (x & y & Hx & Hy & H0 & Hn & Hl & Hnl).
      exists x, y. pose proof (lastMsOfDay_ge cs).
      repeat split; try done.
      * intros _. destruct i; [rewrite H0 by done|specialize (Hn ltac:(done))];
          lia.
      * intros Hlen. apply Hl. simpl in Hlen. lia.
      * intros Hlen. apply Hnl. simpl in Hlen. lia.
Qed.

(** X18.  For set [start < end] there is one box for every calendar day
    from the day of [start] to the day of [end], both included. *)
Theorem renderBarSegments_one_box_per_day (earliest latest : option Date)
    (s e : Z) :
  s < e ->
  exists boxes,
    renderBarSegments earliest latest (Some (Time s)) (Some (Time e))
    = Some (Bars boxes)
    /\ Z.of_nat (length boxes) = dayOf e - dayOf s + 1.
Proof.
  intros Hlt.
  destruct (renderBarSegments_boxes earliest latest s e Hlt)
    as (segs & boxes & Hsegs & Hrender & Hall).
  exists boxes. split; [done|].
  destruct (daySegments_chain s e) as (segs' & Hsegs' & Hchain).
  assert (segs' = segs) as -> by congruence.
  rewrite <- (Forall2_length Hall).
  apply dayChain_length; [lia|done].
Qed.

Lemma renderBarSegments_one_box_per_day_witness :
  1 < 3 * msPerDay
  /\ exists boxes,
    renderBarSegments None None (Some (Time 1)) (Some (Time (3 * msPerDay)))
    = Some (Bars boxes)
    /\ Z.of_nat (length boxes) = dayOf (3 * msPerDay) - dayOf 1 + 1.
Proof.
  assert (H : 1 < 3 * msPerDay) by (vm_compute; reflexivity).
  exact (conj H (renderBarSegments_one_box_per_day None None 1
                   (3 * msPerDay) H)).
Defined.

(** X19.  For set [start < end] the first box, and no other, carries the
    date and the time of [start] as its first label, and the last box,
    and no other, carries the date and the time of [end] as its last
    label. *)
Theorem renderBarSegments_labels_at_ends (earliest latest : option Date)
    (s e : Z) :
  s < e ->
  exists boxes,
    renderBarSegments earliest latest (Some (Time s)) (Some (Time e))
    = Some (Bars boxes)
    /\ forall i box, boxes !! i = Some box ->
         firstLabel box
         = (if decide (i = 0%nat)
            then Some (formatTokens s yyyy_MM_dd, formatTokens s HH_mm)
            else None)
         /\ lastLabel box
            = (if decide (S i = length boxes)
               then Some (formatTokens e yyyy_MM_dd, formatTokens e HH_mm)
               else None).
Proof.
  intros Hlt.
  destruct (renderBarSegments_boxes earliest latest s e Hlt)
    as (segs & boxes & Hsegs & Hrender & Hall).
  exists boxes. split; [done|]. intros i box Hbox.
  destruct (daySegments_chain s e) as (segs' & Hsegs' & Hchain).
  assert (segs' = segs) as -> by congruence.
  destruct (Forall2_lookup_r _ _ _ _ _ Hall Hbox) as (seg & Hseg & Hrs).
  destruct (dayChain_ends e s segs i seg Hchain Hseg)
    as (x & y & Hx & Hy & H0 & Hn & Hl & Hnl).
  destruct (renderSegment_Some earliest latest (Time s) (Time e) seg)
    as (box' & Hbox' & _ & _ & _ & Hfirst & Hlast).
  assert (box' = box) as -> by congruence.
  destruct (labelWhen_sameTime (seg_start seg) (Time s))
    as (l1 & Hl1 & Hno1 & Hyes1).
  destruct (labelWhen_sameTime (seg_end seg) (Time e))
    as (l2 & Hl2 & Hno2 & Hyes2).
  assert (l1 = firstLabel box) as -> by congruence.
  assert (l2 = lastLabel box) as -> by congruence.
  rewrite Hx in Hno1, Hyes1. rewrite Hy in Hno2, Hyes2.
  cbn [sameTime] in Hno1, Hyes1, Hno2, Hyes2.
  rewrite <- (Forall2_length Hall). split.
  - destruct (decide (i = 0%nat)) as [Hi|Hi].
    + rewrite (H0 Hi), Z.eqb_refl in Hyes1.
      destruct (Hyes1 eq_refl) as (t & Ht & ->). congruence.
    + specialize (Hn Hi). apply Hno1. apply Z.eqb_neq. lia.
  - destruct (decide (S i = length segs)) as [Hi|Hi].
    + rewrite (Hl Hi), Z.eqb_refl in Hyes2.
      destruct (Hyes2 eq_refl) as (t & Ht & ->). congruence.
    + specialize (Hnl Hi). apply Hno2. apply Z.eqb_neq. lia.
Qed.

Lemma renderBarSegments_labels_at_ends_witness :
  1 < 3 * msPerDay
  /\ exists boxes,
    renderBarSegments None None (Some (Time 1)) (Some (Time (3 * msPerDay)))
    = Some (Bars boxes)
    /\ forall i box, boxes !! i = Some box ->
         firstLabel box
         = (if decide (i = 0%nat)
            then Some (formatTokens 1 yyyy_MM_dd, formatTokens 1 HH_mm)
            else None)
         /\ lastLabel box
            = (if decide (S i = length boxes)
               then Some (formatTokens (3 * msPerDay) yyyy_MM_dd,
                          formatTokens (3 * msPerDay) HH_mm)
               else None).
Proof.
  assert (H : 1 < 3 * msPerDay) by (vm_compute; reflexivity).
  exact (conj H (renderBarSegments_labels_at_ends None None 1
                   (3 * msPerDay) H)).
Defined.





(** ** Colours *)






(** ** More on the derived bounds *)

Lemma boundsEffect_fold (st : App) (d : Date) (ds : list Date) :
  definedDates (rows st) = d :: ds ->
  earliest (boundsEffect st)
  = Some (newDate (fold_left numMin (map getTime ds) (getTime d)))
  /\ latest (boundsEffect st)
     = Some (newDate (fold_left numMax (map getTime ds) (getTime d))).
Proof.
  intros Hdates. unfold boundsEffect.
  destruct (rows st) eqn:Hrows; [done|]. by rewrite Hdates.
Qed.

Lemma fold_min_max (l : list (option Z)) (a b : option Z) :
  match a, b with
  | None, None => True
  | Some x, Some y => x <= y
  | _, _ => False
  end ->
  match fold_left numMin l a, fold_left numMax l b with
  | None, None => True
  | Some x, Some y => x <= y
  | _, _ => False
  end.
Proof.
  revert a b. induction l as [|c l IH]; intros a b Hab; [done|].
  simpl. apply IH. destruct a, b, c; simpl; try done. lia.
Qed.

Lemma boundsEffect_in_order (st : App) :
  boundsInOrder (earliest st) (latest st) ->
  boundsInOrder (earliest (boundsEffect st)) (latest (boundsEffect st)).
Proof.
  intros Hst. destruct (definedDates (rows st)) as [|d ds] eqn:Hdates.
  - by rewrite boundsEffect_undated.
  - destruct (boundsEffect_fold st d ds Hdates) as [-> ->].
    pose proof (fold_min_max (map getTime ds) (getTime d) (getTime d)) as H.
    destruct (fold_left numMin _ _) as [x|], (fold_left numMax _ _) as [y|];
      simpl.
    + right; right. exists x, y. repeat split.
      apply H. destruct (getTime d); [lia|done].
    + exfalso. apply H. destruct (getTime d); [lia|done].
    + exfalso. apply H. destruct (getTime d); [lia|done].
    + right; left. done.
Qed.

Lemma fold_numMin_None (l : list (option Z)) (a : option Z) :
  a = None \/ In None l -> fold_left numMin l a = None.
Proof.
  revert a. induction l as [|c l IH]; intros a [Ha|Hin]; simpl.
  - done.
  - done.
  - apply IH. left. by rewrite Ha.
  - apply IH. destruct Hin as [->|Hin]; [left; by destruct a|by right].
Qed.

Lemma fold_numMax_None (l : list (option Z)) (a : option Z) :
  a = None \/ In None l -> fold_left numMax l a = None.
Proof.
  revert a. induction l as [|c l IH]; intros a [Ha|Hin]; simpl.
  - done.
  - done.
  - apply IH. left. by rewrite Ha.
  - apply IH. destruct Hin as [->|Hin]; [left; by destruct a|by right].
Qed.

Section MoreBounds.

Variable parseISO : string -> Date.

Lemma reachable_bounds_fold (st : App) (d : Date) (ds : list Date) :
  reachable parseISO st -> definedDates (rows st) = d :: ds ->
  earliest st
  = Some (newDate (fold_left numMin (map getTime ds) (getTime d)))
  /\ latest st
     = Some (newDate (fold_left numMax (map getTime ds) (getTime d))).
Proof.
  induction 1 as [|st a Hreach IH]; intros Hdates; [done|].
  destruct (dispatch_rows_changed parseISO a st) as [Hsame|(st' & Hst' & _)].
  - rewrite Hsame in *. by apply IH.
  - rewrite Hst' in *. rewrite boundsEffect_rows in Hdates.
    by apply boundsEffect_fold.
Qed.

(** X24.  In every state reached by the row operations the two bounds
    are both unset, or both Invalid Dates, or both valid with
    [earliest] not after [latest]. *)
Theorem bounds_in_order (st : App) :
  reachable parseISO st -> boundsInOrder (earliest st) (latest st).
Proof.
  induction 1 as [|st a Hreach IH]; [by left|].
  destruct (dispatch_rows_changed parseISO a st)
    as [->|(st' & -> & He & Hl)]; [done|].
  apply boundsEffect_in_order. by rewrite He, Hl.
Qed.

(** X25.  In every state reached by the row operations, one Invalid
    Date among the timestamps of the rows makes both bounds Invalid
    Dates. *)
Theorem bounds_with_invalid_timestamp (st : App) :
  reachable parseISO st -> InvalidDate ∈ definedDates (rows st) ->
  earliest st = Some InvalidDate /\ latest st = Some InvalidDate.
Proof.
  intros Hreach Hin.
  destruct (definedDates (rows st)) as [|d ds] eqn:Hdates.
  { by apply elem_of_nil in Hin. }
  destruct (reachable_bounds_fold st d ds Hreach Hdates) as [-> ->].
  assert (Hnone : getTime d = None \/ In None (map getTime ds)).
  { apply elem_of_cons in Hin as [<-|Hin]; [by left|right].
    apply in_map_iff. exists InvalidDate. split; [done|].
    by apply list_elem_of_In. }
  by rewrite fold_numMin_None, fold_numMax_None.
Qed.

End MoreBounds.

Lemma bounds_in_order_witness :
  reachable parseDateTime datedState
  /\ boundsInOrder (earliest datedState) (latest datedState)
  /\ earliest datedState = Some jan1_1000
  /\ latest datedState = Some jan3_1400.
Proof.
  assert (H : reachable parseDateTime datedState)
    by (apply reachable_run; constructor).
  exact (conj H (conj (bounds_in_order parseDateTime datedState H)
           (conj eq_refl eq_refl))).
Defined.

Lemma bounds_with_invalid_timestamp_witness :
  reachable parseDateTime invalidState
  /\ InvalidDate ∈ definedDates (rows invalidState)
  /\ earliest invalidState = Some InvalidDate
  /\ latest invalidState = Some InvalidDate.
Proof.
  assert (H1 : reachable parseDateTime invalidState)
    by (apply reachable_run; constructor).
  assert (H2 : InvalidDate ∈ definedDates (rows invalidState))
    by (apply list_elem_of_In; right; left; reflexivity).
  exact (conj H1 (conj H2
           (bounds_with_invalid_timestamp parseDateTime invalidState H1 H2))).
Defined.

Lemma fold_numMin_spec (l : list (option Z)) (a : option Z) :
  match fold_left numMin l a with
  | None => In None (a :: l)
  | Some m =>
      In (Some m) (a :: l) /\ ~ In None (a :: l)
      /\ forall x, In (Some x) (a :: l) -> m <= x
  end.
Proof.
  revert a. induction l as [|c l IH]; intros a.
  - simpl. destruct a as [m|]; [|by left].
    split; [by left|]. split; [by intros [?|[]]|].
    intros x [[= ->]|[]]. lia.
  - cbn [fold_left]. specialize (IH (numMin a c)).
    destruct (fold_left numMin l (numMin a c)) as [m|].
    + destruct IH as (Hin & Hnone & Hmin).
      destruct a as [xa|], c as [xc|];
        try (exfalso; apply Hnone; by left).
      simpl in *. split; [|split].
      * destruct Hin as [[= <-]|Hin]; [|by right; right].
        destruct (Z.min_spec xa xc) as [[_ ->]|[_ ->]];
          [by left|by right; left].
      * intros [?|[?|?]]; try done. apply Hnone. by right.
      * intros x [[= ->]|[[= ->]|Hx]].
        -- specialize (Hmin (Z.min x xc) (or_introl eq_refl)). lia.
        -- specialize (Hmin (Z.min xa x) (or_introl eq_refl)). lia.
        -- apply Hmin. by right.
    + destruct IH as [Hnone|Hin]; [|by right; right].
      destruct a, c; try done; [by right; left|by left|by left].
Qed.

Lemma fold_numMax_spec (l : list (option Z)) (a : option Z) :
  match fold_left numMax l a with
  | None => In None (a :: l)
  | Some m =>
      In (Some m) (a :: l) /\ ~ In None (a :: l)
      /\ forall x, In (Some x) (a :: l) -> x <= m
  end.
Proof.
  revert a. induction l as [|c l IH]; intros a.
  - simpl. destruct a as [m|]; [|by left].
    split; [by left|]. split; [by intros [?|[]]|].
    intros x [[= ->]|[]]. lia.
  - cbn [fold_left]. specialize (IH (numMax a c)).
    destruct (fold_left numMax l (numMax a c)) as [m|].
    + destruct IH as (Hin & Hnone & Hmax).
      destruct a as [xa|], c as [xc|];
        try (exfalso; apply Hnone; by left).
      simpl in *. split; [|split].
      * destruct Hin as [[= <-]|Hin]; [|by right; right].
        destruct (Z.max_spec xa xc) as [[_ ->]|[_ ->]];
          [by right; left|by left].
      * intros [?|[?|?]]; try done. apply Hnone. by right.
      * intros x [[= ->]|[[= ->]|Hx]].
        -- specialize (Hmax (Z.max x xc) (or_introl eq_refl)). lia.
        -- specialize (Hmax (Z.max xa x) (or_introl eq_refl)). lia.
        -- apply Hmax. by right.
    + destruct IH as [Hnone|Hin]; [|by right; right].
      destruct a, c; try done; [by right; left|by left|by left].
Qed.

(** The two folds depend on the elements of the list only, not on their
    order or their number. *)
Lemma fold_same_elements (l l' : list (option Z)) (a a' : option Z) :
  (forall x, In x (a :: l) <-> In x (a' :: l')) ->
  fold_left numMin l a = fold_left numMin l' a'
  /\ fold_left numMax l a = fold_left numMax l' a'.
Proof.
  intros Hsame. split.
  - pose proof (fold_numMin_spec l a) as H1.
    pose proof (fold_numMin_spec l' a') as H2.
    destruct (fold_left numMin l a) as [m|],
             (fold_left numMin l' a') as [m'|]; try done.
    + destruct H1 as (Hin & _ & Hmin), H2 as (Hin' & _ & Hmin').
      f_equal. apply Hsame in Hin. apply Hsame in Hin'.
      specialize (Hmin _ Hin'). specialize (Hmin' _ Hin). lia.
    + destruct H1 as (_ & Hnone & _). exfalso. apply Hnone. by apply Hsame.
    + destruct H2 as (_ & Hnone & _). exfalso. apply Hnone. by apply Hsame.
  - pose proof (fold_numMax_spec l a) as H1.
    pose proof (fold_numMax_spec l' a') as H2.
    destruct (fold_left numMax l a) as [m|],
             (fold_left numMax l' a') as [m'|]; try done.
    + destruct H1 as (Hin & _ & Hmax), H2 as (Hin' & _ & Hmax').
      f_equal. apply Hsame in Hin. apply Hsame in Hin'.
      specialize (Hmax _ Hin'). specialize (Hmax' _ Hin). lia.
    + destruct H1 as (_ & Hnone & _). exfalso. apply Hnone. by apply Hsame.
    + destruct H2 as (_ & Hnone & _). exfalso. apply Hnone. by apply Hsame.
Qed.

Lemma definedDates_elem (rs : list Row) (d : Date) :
  In d (definedDates rs)
  <-> exists row, In row rs /\ (start row = Some d \/ end_ row = Some d).
Proof.
  unfold definedDates. rewrite <- list_elem_of_In, list_elem_of_omap.
  split.
  - intros (o & Ho & Hd). simpl in Hd. subst o.
    apply list_elem_of_In, in_flat_map in Ho as (row & Hrow & Hin).
    exists row. split; [done|].
    destruct Hin as [?|[?|[]]]; [by left|by right].
  - intros (row & Hrow & Hd). exists (Some d). split; [|done].
    apply list_elem_of_In, in_flat_map. exists row. split; [done|].
    destruct Hd as [<-|<-]; [by left|by right; left].
Qed.

(** Rows with the same timestamps, as sets, give the same bounds. *)
Lemma boundsEffect_same_timestamps (st st' : App) :
  (forall d,
     In d (definedDates (rows st')) <-> In d (definedDates (rows st))) ->
  earliest st' = earliest st -> latest st' = latest st ->
  (forall d ds, definedDates (rows st) = d :: ds ->
     earliest st
     = Some (newDate (fold_left numMin (map getTime ds) (getTime d)))
     /\ latest st
        = Some (newDate (fold_left numMax (map getTime ds) (getTime d)))) ->
  earliest (boundsEffect st') = earliest st
  /\ latest (boundsEffect st') = latest st.
Proof.
  intros Hsame He Hl Hinv.
  destruct (definedDates (rows st')) as [|d' ds'] eqn:Hdates'.
  { by rewrite boundsEffect_undated. }
  destruct (boundsEffect_fold st' d' ds' Hdates') as [-> ->].
  destruct (definedDates (rows st)) as [|d ds] eqn:Hdates.
  { exfalso. apply (Hsame d'). by left. }
  destruct (Hinv d ds eq_refl) as [-> ->].
  destruct (fold_same_elements (map getTime ds') (map getTime ds)
              (getTime d') (getTime d)) as [-> ->]; [|done].
  intros x.
  change (getTime d' :: map getTime ds') with (map getTime (d' :: ds')).
  change (getTime d :: map getTime ds) with (map getTime (d :: ds)).
  rewrite !in_map_iff. split; intros (y & Hy & Hin); exists y;
    (split; [done|]); by apply Hsame.
Qed.

Lemma spliceIn_delete_Permutation {A} (l : list A) (src dst : nat) (x : A) :
  l !! src = Some x -> spliceIn dst x (delete src l) ≡ₚ l.
Proof.
  intros Hx. unfold spliceIn. rewrite <- Permutation_middle, take_drop.
  symmetry. by apply delete_Permutation.
Qed.

Section Invariance.

Variable parseISO : string -> Date.

(** X26.  Selecting or unselecting all rows, dropping a dragged row and
    copying the selected rows never move the bounds: in every state
    reached by the row operations [earliest] and [latest] are after
    these operations what they were before. *)
Theorem bounds_unmoved_by_select_drag_copy (st : App) :
  reachable parseISO st ->
  (forall checked,
     earliest (dispatch parseISO (SelectAll checked) st) = earliest st
     /\ latest (dispatch parseISO (SelectAll checked) st) = latest st)
  /\ (forall result,
        earliest (dispatch parseISO (DragEnd result) st) = earliest st
        /\ latest (dispatch parseISO (DragEnd result) st) = latest st)
  /\ earliest (dispatch parseISO CopySelected st) = earliest st
  /\ latest (dispatch parseISO CopySelected st) = latest st.
Proof.
  intros Hreach.
  pose proof (fun d ds => reachable_bounds_fold parseISO st d ds Hreach)
    as Hinv.
  split; [|split].
  - intros checked. unfold dispatch. cbn [handler].
    apply boundsEffect_same_timestamps; try done.
    intros d. rewrite !definedDates_elem.
    cbn [setRows rows handleSelectAll snd]. split.
    + intros (row' & (row & <- & Hrow)%in_map_iff & Hd). by exists row.
    + intros (row & Hrow & Hd).
      exists {| name := name row; ip := ip row; start := start row;
                end_ := end_ row; errors := errors row;
                selected := checked |}.
      split; [|exact Hd]. apply in_map_iff. by exists row.
  - intros result. unfold dispatch. cbn [handler].
    destruct (handleDragEnd result st) as [u|] eqn:Hu; [|done].
    apply boundsEffect_same_timestamps; try done.
    unfold handleDragEnd in Hu.
    destruct (destination result) as [dst|]; [|done]. simpl in Hu.
    destruct (rows st !! source result) as [row|] eqn:Hrow; [|done].
    injection Hu as <-. cbn [setRows rows snd].
    pose proof (spliceIn_delete_Permutation (rows st) (source result) dst
                  row Hrow) as Hperm.
    intros d. rewrite !definedDates_elem.
    split; intros (r & Hr & Hd); exists r; (split; [|done]).
    + by apply (Permutation_in _ Hperm).
    + by apply (Permutation_in _ (Permutation_sym Hperm)).
  - unfold dispatch. cbn [handler].
    apply boundsEffect_same_timestamps; try done.
    intros d. rewrite !definedDates_elem.
    cbn [setRows rows handleCopySelected snd]. split.
    + intros (r & [Hr|Hr]%in_app_iff & Hd); [by exists r|].
      apply in_map_iff in Hr as (row & <- & [Hrow _]%filter_In).
      by exists row.
    + intros (r & Hr & Hd). exists r. split; [|done].
      apply in_app_iff. by left.
Qed.

End Invariance.

Lemma bounds_unmoved_by_select_drag_copy_witness :
  reachable parseDateTime datedState
  /\ earliest (dispatch parseDateTime (SelectAll true) datedState)
     = earliest datedState
  /\ latest (dispatch parseDateTime CopySelected datedState)
     = latest datedState
  /\ earliest (dispatch parseDateTime
                 (DragEnd {| source := 0; destination := Some 0%nat |})
                 datedState)
     = earliest datedState.
Proof.
  assert (H : reachable parseDateTime datedState)
    by (apply reachable_run; constructor).
  pose proof (bounds_unmoved_by_select_drag_copy parseDateTime datedState H)
    as (Hselect & Hdrag & _ & Hcopy).
  exact (conj H (conj (proj1 (Hselect true))
           (conj Hcopy
              (proj1 (Hdrag {| source := 0; destination := Some 0%nat |}))))).
Defined.

(** ** The geometry between settled bounds *)


Section Settled.

Variable parseISO : string -> Date.


End Settled.

